(** * Raydium CPMM quoting and swap assembly (src/lib/raydiumCpmm.ts)

    A shallow embedding of the quoting-and-assembly engine of the trading
    terminal: the pool-state decoder, the direct and by-pair pool lookups,
    the constant-product quote with its slippage policy, the swap
    instruction and the assembled swap transaction.

    Conventions of the embedding.
    - [BN] (bn.js) is an arbitrary-precision signed integer: [Z].  Its
      [div] truncates towards zero and asserts a non-zero divisor; its
      [toNumber] asserts that the value fits 53 bits.
    - A JavaScript [number] holding an integer is a [Z]; fractional values
      and NaN are outside the model.  The only float the module computes,
      [priceImpact], is kept exactly as hundredths of a percent.
    - A [Buffer] is a [list byte].
    - A thrown exception is the [Throw] result; [async] functions run in a
      small state-and-error monad over the ledger trace and the entropy
      counter.  Console output is not modelled. *)

From Stdlib Require Import ZArith List Lia Bool String Ascii.
From Stdlib Require Import Strings.Byte.
Import ListNotations.
Open Scope Z_scope.

(* ================================================================== *)
(** ** Exceptions *)

Inductive Error : Type :=
| JsError (msg : string)           (* new Error(msg) *)
| RangeError (msg : string)        (* Buffer.writeBigUInt64LE out of range *)
| AssertionFailed (msg : string)   (* bn.js assert(false, msg) *)
| RpcFailure (msg : string)        (* a rejected ledger request *)
| TokenOwnerOffCurveError.         (* spl-token address derivation *)

Inductive Result (A : Type) : Type :=
| Ok (a : A)
| Throw (e : Error).
Arguments Ok {A} a.
Arguments Throw {A} e.

Definition rbind {A B} (r : Result A) (f : A -> Result B) : Result B :=
  match r with
  | Ok a => f a
  | Throw e => Throw e
  end.

Declare Scope result_scope.
Delimit Scope result_scope with result.
Notation "'let?' x ':=' r 'in' k" := (rbind r (fun x => k))
  (at level 10, x pattern, r at level 100, k at level 200) : result_scope.

Definition isOk {A} (r : Result A) : bool :=
  match r with Ok _ => true | Throw _ => false end.

(* ================================================================== *)
(** ** Bytes and buffers *)

Definition Z_of_byte (b : byte) : Z := Z.of_N (Byte.to_N b).

Definition byte_of_Z (z : Z) : byte :=
  match Byte.of_N (Z.to_N (z mod 256)) with
  | Some b => b
  | None => x00
  end.

Definition Buffer := list byte.

(** [data.subarray(start, end)]: indices are clamped to the buffer. *)
Definition subarray (start end_ : nat) (data : Buffer) : Buffer :=
  firstn (end_ - start) (skipn start data).

(** [data[i]]: [undefined] past the end. *)
Definition index (data : Buffer) (i : nat) : option byte := nth_error data i.

(** Little-endian and big-endian readings of a byte string. *)
Fixpoint le_decode (bs : list byte) : Z :=
  match bs with
  | [] => 0
  | b :: rest => Z_of_byte b + 256 * le_decode rest
  end.

Definition be_decode (bs : list byte) : Z := le_decode (rev bs).

Fixpoint le_encode (n : nat) (v : Z) : list byte :=
  match n with
  | O => []
  | S k => byte_of_Z (Z.land v 255) :: le_encode k (Z.shiftr v 8)
  end.

Definition be_encode (n : nat) (v : Z) : list byte := rev (le_encode n v).

(** [buf.writeBigUInt64LE(value, offset)] yields these eight bytes, and
    throws a RangeError unless [0 <= value < 2^64]. *)
Definition writeBigUInt64LE (value : Z) : Result (list byte) :=
  if (0 <=? value) && (value <? 2 ^ 64)
  then Ok (le_encode 8 value)
  else Throw (RangeError "The value of value is out of range").

(* ================================================================== *)
(** ** bn.js *)

Module BN.

(** [new BN(number)]: bn.js asserts that a number is below 2^53 in
    absolute value. *)
Definition ofNumber (n : Z) : Result Z :=
  if Z.abs n <? 2 ^ 53 then Ok n
  else Throw (AssertionFailed "Assertion failed").

(** [a.div(b)]: truncated division; asserts that [b] is not zero. *)
Definition div (a b : Z) : Result Z :=
  if b =? 0 then Throw (AssertionFailed "Assertion failed")
  else Ok (Z.quot a b).

Definition bitLength (a : Z) : Z :=
  if a =? 0 then 0 else Z.log2 (Z.abs a) + 1.

Definition byteLength (a : Z) : Z := (bitLength a + 7) / 8.

(** [a.toNumber()]: asserts that the value fits 53 bits. *)
Definition toNumber (a : Z) : Result Z :=
  if bitLength a <=? 53 then Ok a
  else Throw (AssertionFailed "Number can only safely store up to 53 bits").

(** [new BN(buffer, "le")] and [new BN(buffer)]. *)
Definition ofBufferLE (b : Buffer) : Z := le_decode b.
Definition ofBufferBE (b : Buffer) : Z := be_decode b.

End BN.

(* ================================================================== *)
(** ** Addresses (web3.js PublicKey) *)

Record PublicKey : Type := mkPublicKey { pk_bn : Z }.

Definition PUBLIC_KEY_LENGTH : Z := 32.

(** [new PublicKey(bytes)]: the bytes are read big-endian; more than 32
    significant bytes are rejected, fewer are accepted. *)
Definition newPublicKey (bytes : Buffer) : Result PublicKey :=
  let bn := BN.ofBufferBE bytes in
  if BN.byteLength bn >? PUBLIC_KEY_LENGTH
  then Throw (JsError "Invalid public key input")
  else Ok (mkPublicKey bn).

(** [a.equals(b)] compares the underlying numbers. *)
Definition equals (a b : PublicKey) : bool := pk_bn a =? pk_bn b.

(** [key.toBytes()]: 32 bytes, big-endian, zero padded on the left. *)
Definition toBytes (k : PublicKey) : Buffer := be_encode 32 (pk_bn k).

(** Base58 (bs58) text form of a byte string: one '1' per leading zero
    byte, then the digits of the number. *)
Definition base58_alphabet : string :=
  "123456789ABCDEFGHJKLMNPQRSTUVWXYZabcdefghijkmnopqrstuvwxyz".

Definition base58_char (d : Z) : ascii :=
  match String.get (Z.to_nat d) base58_alphabet with
  | Some c => c
  | None => "1"%char
  end.

Fixpoint base58_digits (fuel : nat) (v : Z) (acc : string) : string :=
  match fuel with
  | O => acc
  | S f =>
      if v <=? 0 then acc
      else base58_digits f (v / 58) (String (base58_char (v mod 58)) acc)
  end.

Fixpoint leading_zeros (bs : list byte) : nat :=
  match bs with
  | b :: rest => if Z_of_byte b =? 0 then S (leading_zeros rest) else O
  | [] => O
  end.

Fixpoint ones (n : nat) (tail : string) : string :=
  match n with
  | O => tail
  | S k => String "1"%char (ones k tail)
  end.

(** 44 digits are enough for any 32-byte value. *)
Definition bs58_encode (bs : list byte) : string :=
  ones (leading_zeros bs) (base58_digits 44 (be_decode bs) EmptyString).

Definition toBase58 (k : PublicKey) : string := bs58_encode (toBytes k).

Definition base58_value_of (c : ascii) : option Z :=
  option_map Z.of_nat (String.index 0 (String c EmptyString) base58_alphabet).

Fixpoint bs58_decode_value (s : string) (acc : Z) : option Z :=
  match s with
  | EmptyString => Some acc
  | String c rest =>
      match base58_value_of c with
      | Some d => bs58_decode_value rest (acc * 58 + d)
      | None => None
      end
  end.

Fixpoint leading_ones (s : string) : Z :=
  match s with
  | String c rest => if Ascii.eqb c "1" then 1 + leading_ones rest else 0
  | EmptyString => 0
  end.

(** [new PublicKey(text)]: the decoded byte string must be 32 bytes long. *)
Definition publicKeyOfBase58 (s : string) : Result PublicKey :=
  match bs58_decode_value s 0 with
  | Some v =>
      if leading_ones s + BN.byteLength v =? PUBLIC_KEY_LENGTH
      then Ok (mkPublicKey v)
      else Throw (JsError "Invalid public key input")
  | None => Throw (JsError "Non-base58 character")
  end.

Definition publicKeyLiteral (s : string) : PublicKey :=
  match publicKeyOfBase58 s with
  | Ok k => k
  | Throw _ => mkPublicKey 0
  end.

(* ================================================================== *)
(** ** Module constants *)

(* Token account rent exemption *)
Definition TOKEN_ACCOUNT_RENT : Z := 2039280.

Definition RAYDIUM_CPMM_PROGRAM_ID : PublicKey :=
  Eval vm_compute in
    publicKeyLiteral "CPMMoo8L3F4NbTegBCKVNunggL7H1ZpdTHKxQB5qKP1C".

Definition RAYDIUM_CPMM_AUTHORITY : PublicKey :=
  Eval vm_compute in
    publicKeyLiteral "GpMZbSM2GgvTKHJirzeGfMFoaZ8UR2X7F4v8vHTvxFbL".

(** Constants imported from @solana/spl-token. *)
Definition TOKEN_PROGRAM_ID : PublicKey :=
  Eval vm_compute in
    publicKeyLiteral "TokenkegQfeZyiNwAJbNbGKPFXCWuBvf9Ss623VQ5DA".

Definition NATIVE_MINT : PublicKey :=
  Eval vm_compute in
    publicKeyLiteral "So11111111111111111111111111111111111111112".

Definition ACCOUNT_SIZE : Z := 165.

(* swap_base_input instruction discriminator *)
Definition SWAP_BASE_INPUT_DISCRIMINATOR : Buffer :=
  map byte_of_Z [143; 190; 90; 218; 196; 30; 51; 222].

(* ================================================================== *)
(** ** Pool state account layout *)

Module POOL_STATE_LAYOUT.
Definition AMM_CONFIG : nat := 8.  (* offset after discriminator *)
Definition POOL_CREATOR : nat := 40.
Definition TOKEN_0_VAULT : nat := 72.
Definition TOKEN_1_VAULT : nat := 104.
Definition LP_MINT : nat := 136.
Definition TOKEN_0_MINT : nat := 168.
Definition TOKEN_1_MINT : nat := 200.
Definition TOKEN_0_PROGRAM : nat := 232.
Definition TOKEN_1_PROGRAM : nat := 264.
Definition OBSERVATION_KEY : nat := 296.
Definition AUTH_BUMP : nat := 328.
Definition STATUS : nat := 329.
Definition LP_MINT_DECIMALS : nat := 330.
Definition MINT_0_DECIMALS : nat := 331.
Definition MINT_1_DECIMALS : nat := 332.
Definition LP_SUPPLY : nat := 333.
Definition PROTOCOL_FEES_TOKEN_0 : nat := 341.
Definition PROTOCOL_FEES_TOKEN_1 : nat := 349.
Definition FUND_FEES_TOKEN_0 : nat := 357.
Definition FUND_FEES_TOKEN_1 : nat := 365.
Definition OPEN_TIME : nat := 373.
End POOL_STATE_LAYOUT.

(** The one-byte fields are read with [data[offset]], which is
    [undefined] ([None]) when the buffer is too short. *)
Record PoolState : Type := mkPoolState {
  address : PublicKey;
  ammConfig : PublicKey;
  poolCreator : PublicKey;
  token0Vault : PublicKey;
  token1Vault : PublicKey;
  lpMint : PublicKey;
  token0Mint : PublicKey;
  token1Mint : PublicKey;
  token0Program : PublicKey;
  token1Program : PublicKey;
  observationKey : PublicKey;
  authBump : option byte;
  status : option byte;
  lpMintDecimals : option byte;
  mint0Decimals : option byte;
  mint1Decimals : option byte;
  lpSupply : Z;
  protocolFeesToken0 : Z;
  protocolFeesToken1 : Z;
  fundFeesToken0 : Z;
  fundFeesToken1 : Z;
  openTime : Z
}.

Record VaultBalances : Type := mkVaultBalances {
  vault0Balance : Z;
  vault1Balance : Z
}.

(** [priceImpact] is the float [priceImpactBps / 100]. *)
Record SwapQuote : Type := mkSwapQuote {
  amountIn : Z;
  amountOut : Z;
  minimumAmountOut : Z;
  priceImpactBps : Z;
  inputMint : PublicKey;
  outputMint : PublicKey
}.

Local Open Scope result_scope.

Definition keyAt (data : Buffer) (offset : nat) : Result PublicKey :=
  newPublicKey (subarray offset (offset + 32) data).

Definition u64At (data : Buffer) (offset : nat) : Z :=
  BN.ofBufferLE (subarray offset (offset + 8) data).

(** Parse pool state from account data *)
Definition parsePoolState (address : PublicKey) (data : Buffer)
  : Result PoolState :=
  let? ammConfig := keyAt data POOL_STATE_LAYOUT.AMM_CONFIG in
  let? poolCreator := keyAt data POOL_STATE_LAYOUT.POOL_CREATOR in
  let? token0Vault := keyAt data POOL_STATE_LAYOUT.TOKEN_0_VAULT in
  let? token1Vault := keyAt data POOL_STATE_LAYOUT.TOKEN_1_VAULT in
  let? lpMint := keyAt data POOL_STATE_LAYOUT.LP_MINT in
  let? token0Mint := keyAt data POOL_STATE_LAYOUT.TOKEN_0_MINT in
  let? token1Mint := keyAt data POOL_STATE_LAYOUT.TOKEN_1_MINT in
  let? token0Program := keyAt data POOL_STATE_LAYOUT.TOKEN_0_PROGRAM in
  let? token1Program := keyAt data POOL_STATE_LAYOUT.TOKEN_1_PROGRAM in
  let? observationKey := keyAt data POOL_STATE_LAYOUT.OBSERVATION_KEY in
  Ok {|
    address := address;
    ammConfig := ammConfig;
    poolCreator := poolCreator;
    token0Vault := token0Vault;
    token1Vault := token1Vault;
    lpMint := lpMint;
    token0Mint := token0Mint;
    token1Mint := token1Mint;
    token0Program := token0Program;
    token1Program := token1Program;
    observationKey := observationKey;
    authBump := index data POOL_STATE_LAYOUT.AUTH_BUMP;
    status := index data POOL_STATE_LAYOUT.STATUS;
    lpMintDecimals := index data POOL_STATE_LAYOUT.LP_MINT_DECIMALS;
    mint0Decimals := index data POOL_STATE_LAYOUT.MINT_0_DECIMALS;
    mint1Decimals := index data POOL_STATE_LAYOUT.MINT_1_DECIMALS;
    lpSupply := u64At data POOL_STATE_LAYOUT.LP_SUPPLY;
    protocolFeesToken0 := u64At data POOL_STATE_LAYOUT.PROTOCOL_FEES_TOKEN_0;
    protocolFeesToken1 := u64At data POOL_STATE_LAYOUT.PROTOCOL_FEES_TOKEN_1;
    fundFeesToken0 := u64At data POOL_STATE_LAYOUT.FUND_FEES_TOKEN_0;
    fundFeesToken1 := u64At data POOL_STATE_LAYOUT.FUND_FEES_TOKEN_1;
    openTime := u64At data POOL_STATE_LAYOUT.OPEN_TIME
  |}.

(** The fixed size of a pool record (the [dataSize] filter of the search). *)
Definition POOL_RECORD_SIZE : nat := 637.

(** Modelled from the spec: the re-encoder of the round-trip property,
    which the module does not contain (the codec is read-only).  It
    writes every decoded field back at the offset it was read from: an
    address as its 32 bytes, a one-byte field as that byte, a counter as
    8 little-endian bytes. *)
Definition write_at (offset : nat) (bytes : list byte) (buf : Buffer) : Buffer :=
  firstn offset buf ++ bytes ++ skipn (offset + List.length bytes) buf.

Definition byteField (b : option byte) : list byte :=
  match b with Some x => [x] | None => [] end.

Definition encodedFields (p : PoolState) : list (nat * list byte) :=
  [ (POOL_STATE_LAYOUT.AMM_CONFIG, toBytes (ammConfig p));
    (POOL_STATE_LAYOUT.POOL_CREATOR, toBytes (poolCreator p));
    (POOL_STATE_LAYOUT.TOKEN_0_VAULT, toBytes (token0Vault p));
    (POOL_STATE_LAYOUT.TOKEN_1_VAULT, toBytes (token1Vault p));
    (POOL_STATE_LAYOUT.LP_MINT, toBytes (lpMint p));
    (POOL_STATE_LAYOUT.TOKEN_0_MINT, toBytes (token0Mint p));
    (POOL_STATE_LAYOUT.TOKEN_1_MINT, toBytes (token1Mint p));
    (POOL_STATE_LAYOUT.TOKEN_0_PROGRAM, toBytes (token0Program p));
    (POOL_STATE_LAYOUT.TOKEN_1_PROGRAM, toBytes (token1Program p));
    (POOL_STATE_LAYOUT.OBSERVATION_KEY, toBytes (observationKey p));
    (POOL_STATE_LAYOUT.AUTH_BUMP, byteField (authBump p));
    (POOL_STATE_LAYOUT.STATUS, byteField (status p));
    (POOL_STATE_LAYOUT.LP_MINT_DECIMALS, byteField (lpMintDecimals p));
    (POOL_STATE_LAYOUT.MINT_0_DECIMALS, byteField (mint0Decimals p));
    (POOL_STATE_LAYOUT.MINT_1_DECIMALS, byteField (mint1Decimals p));
    (POOL_STATE_LAYOUT.LP_SUPPLY, le_encode 8 (lpSupply p));
    (POOL_STATE_LAYOUT.PROTOCOL_FEES_TOKEN_0, le_encode 8 (protocolFeesToken0 p));
    (POOL_STATE_LAYOUT.PROTOCOL_FEES_TOKEN_1, le_encode 8 (protocolFeesToken1 p));
    (POOL_STATE_LAYOUT.FUND_FEES_TOKEN_0, le_encode 8 (fundFeesToken0 p));
    (POOL_STATE_LAYOUT.FUND_FEES_TOKEN_1, le_encode 8 (fundFeesToken1 p));
    (POOL_STATE_LAYOUT.OPEN_TIME, le_encode 8 (openTime p)) ].

(** The byte span (offset, width) of every decoded field, in layout
    order, and the end of the last one. *)
Definition fieldSpans : list (nat * nat) :=
  [ (POOL_STATE_LAYOUT.AMM_CONFIG, 32); (POOL_STATE_LAYOUT.POOL_CREATOR, 32);
    (POOL_STATE_LAYOUT.TOKEN_0_VAULT, 32); (POOL_STATE_LAYOUT.TOKEN_1_VAULT, 32);
    (POOL_STATE_LAYOUT.LP_MINT, 32);
    (POOL_STATE_LAYOUT.TOKEN_0_MINT, 32); (POOL_STATE_LAYOUT.TOKEN_1_MINT, 32);
    (POOL_STATE_LAYOUT.TOKEN_0_PROGRAM, 32); (POOL_STATE_LAYOUT.TOKEN_1_PROGRAM, 32);
    (POOL_STATE_LAYOUT.OBSERVATION_KEY, 32);
    (POOL_STATE_LAYOUT.AUTH_BUMP, 1); (POOL_STATE_LAYOUT.STATUS, 1);
    (POOL_STATE_LAYOUT.LP_MINT_DECIMALS, 1);
    (POOL_STATE_LAYOUT.MINT_0_DECIMALS, 1); (POOL_STATE_LAYOUT.MINT_1_DECIMALS, 1);
    (POOL_STATE_LAYOUT.LP_SUPPLY, 8);
    (POOL_STATE_LAYOUT.PROTOCOL_FEES_TOKEN_0, 8);
    (POOL_STATE_LAYOUT.PROTOCOL_FEES_TOKEN_1, 8);
    (POOL_STATE_LAYOUT.FUND_FEES_TOKEN_0, 8);
    (POOL_STATE_LAYOUT.FUND_FEES_TOKEN_1, 8);
    (POOL_STATE_LAYOUT.OPEN_TIME, 8) ]%nat.

Definition LAYOUT_START : nat := POOL_STATE_LAYOUT.AMM_CONFIG.
Definition LAYOUT_END : nat := POOL_STATE_LAYOUT.OPEN_TIME + 8.

Definition layoutSlices (data : Buffer) : list (nat * list byte) :=
  map (fun span => (fst span, subarray (fst span) (fst span + snd span) data))
      fieldSpans.

(** Fields that follow one another without gap from a given offset. *)
Fixpoint contiguous (offset : nat) (fields : list (nat * list byte)) : Prop :=
  match fields with
  | [] => True
  | f :: rest =>
      fst f = offset /\ contiguous (offset + List.length (snd f)) rest
  end.

Definition writeFields (fields : list (nat * list byte)) (buf : Buffer) : Buffer :=
  fold_left (fun b f => write_at (fst f) (snd f) b) fields buf.

(** Re-encoding over an existing record, and into a fresh zeroed one. *)
Definition encodePoolStateInto (buf : Buffer) (p : PoolState) : Buffer :=
  writeFields (encodedFields p) buf.

Definition encodePoolState (p : PoolState) : Buffer :=
  encodePoolStateInto (repeat x00 POOL_RECORD_SIZE) p.

(* ================================================================== *)
(** ** The ledger connection and the async monad *)

Inductive Filter : Type :=
| DataSize (size : nat)
| Memcmp (offset : nat) (bytes : string).

(** What [getAccountInfo] returns about an account, as far as it is read. *)
Record AccountInfo : Type := mkAccountInfo {
  account_owner : PublicKey;
  account_data : Buffer
}.

Inductive RpcCall : Type :=
| GetAccountInfo (address : PublicKey)
| GetProgramAccounts (programId : PublicKey) (filters : list Filter)
| GetTokenAccountBalance (address : PublicKey)
| GetLatestBlockhash.

(** The remote ledger.  Every answer may depend on how many requests were
    issued before it, so that two reads of one account need not agree; a
    [Throw] is a rejected request.  [getTokenAccountBalance] gives the
    number written in [value.amount]. *)
Record Connection : Type := mkConnection {
  getAccountInfo : nat -> PublicKey -> Result (option AccountInfo);
  getProgramAccounts :
    nat -> PublicKey -> list Filter -> Result (list (PublicKey * AccountInfo));
  getTokenAccountBalance : nat -> PublicKey -> Result Z;
  getLatestBlockhash : nat -> Result string
}.

(** Library functions that hash or draw entropy are parameters. *)
Record Platform : Type := mkPlatform {
  (* Keypair.generate().publicKey, for the n-th keypair drawn *)
  generateKeypair : nat -> PublicKey;
  (* PublicKey.createWithSeed(fromPublicKey, seed, programId) *)
  createWithSeed : PublicKey -> string -> PublicKey -> PublicKey;
  (* getAssociatedTokenAddressSync(mint, owner, allowOwnerOffCurve, programId) *)
  getAssociatedTokenAddressSync :
    PublicKey -> PublicKey -> bool -> PublicKey -> Result PublicKey
}.

Record World : Type := mkWorld {
  rpc_log : list RpcCall;     (* requests issued so far, oldest first *)
  keypairs_drawn : nat
}.

Definition M (A : Type) : Type := World -> Result A * World.

Definition ret {A} (a : A) : M A := fun w => (Ok a, w).

Definition throw {A} (e : Error) : M A := fun w => (Throw e, w).

Definition bind {A B} (m : M A) (f : A -> M B) : M B :=
  fun w =>
    match m w with
    | (Ok a, w') => f a w'
    | (Throw e, w') => (Throw e, w')
    end.

Definition lift {A} (r : Result A) : M A := fun w => (r, w).

(** [try { body } catch (error) { handler }] *)
Definition try_catch {A} (body : M A) (handler : Error -> M A) : M A :=
  fun w =>
    match body w with
    | (Ok a, w') => (Ok a, w')
    | (Throw e, w') => handler e w'
    end.

Declare Scope async_scope.
Delimit Scope async_scope with async.
Notation "'await' x '<-' m ';' k" := (bind m (fun x => k))
  (at level 10, x pattern, m at level 100, k at level 200) : async_scope.

Definition request {A} (call : RpcCall) (answer : nat -> Result A) : M A :=
  fun w =>
    (answer (List.length (rpc_log w)),
     {| rpc_log := rpc_log w ++ [call]; keypairs_drawn := keypairs_drawn w |}).

(** [Promise.all([a, b])]: both requests are issued; it rejects when one
    of them does. *)
Definition Promise_all2 {A B} (a : M A) (b : M B) : M (A * B) :=
  fun w =>
    let (ra, w1) := a w in
    let (rb, w2) := b w1 in
    (rbind ra (fun x => rbind rb (fun y => Ok (x, y))), w2).

Definition Keypair_generate (pf : Platform) : M PublicKey :=
  fun w =>
    (Ok (generateKeypair pf (keypairs_drawn w)),
     {| rpc_log := rpc_log w; keypairs_drawn := S (keypairs_drawn w) |}).

Local Open Scope async_scope.

(* ================================================================== *)
(** ** Pool lookup *)

(** Fetch pool state by address directly (fast, single RPC call) *)
Definition getPoolStateByAddress (connection : Connection)
  (poolAddress : PublicKey) : M (option PoolState) :=
  try_catch
    (await accountInfo <-
       request (GetAccountInfo poolAddress)
               (fun t => getAccountInfo connection t poolAddress);
     match accountInfo with
     | None => ret None
     | Some accountInfo =>
         if negb (String.eqb (toBase58 (account_owner accountInfo))
                             (toBase58 RAYDIUM_CPMM_PROGRAM_ID))
         then ret None
         else
           await poolState <-
             lift (parsePoolState poolAddress (account_data accountInfo));
           ret (Some poolState)
     end)
    (fun _ => ret None).

Definition isActive (p : PoolState) : bool :=
  match status p with
  | Some b => Z_of_byte b =? 0
  | None => false
  end.

(** The loop over the merged search results: a candidate that fails to
    parse, or is not active, is skipped. *)
Fixpoint firstActivePool (allAccounts : list (PublicKey * AccountInfo))
  : option PoolState :=
  match allAccounts with
  | [] => None
  | (pubkey, account) :: rest =>
      match parsePoolState pubkey (account_data account) with
      | Ok poolState =>
          if isActive poolState then Some poolState else firstActivePool rest
      | Throw _ => firstActivePool rest
      end
  end.

Definition searchFilters (first second : PublicKey) : list Filter :=
  [ DataSize 637;
    Memcmp POOL_STATE_LAYOUT.TOKEN_0_MINT (toBase58 first);
    Memcmp POOL_STATE_LAYOUT.TOKEN_1_MINT (toBase58 second) ].

Definition searchPools (connection : Connection) (filters : list Filter)
  : M (list (PublicKey * AccountInfo)) :=
  try_catch
    (request (GetProgramAccounts RAYDIUM_CPMM_PROGRAM_ID filters)
       (fun t => getProgramAccounts connection t RAYDIUM_CPMM_PROGRAM_ID filters))
    (fun _ => ret []).

(** Find CPMM pool by token pair using getProgramAccounts with memcmp
    filters *)
Definition findPoolByTokenPair (connection : Connection)
  (tokenA tokenB : PublicKey) : M (option PoolState) :=
  await results <-
    Promise_all2 (searchPools connection (searchFilters tokenA tokenB))
                 (searchPools connection (searchFilters tokenB tokenA));
  let allAccounts := fst results ++ snd results in
  ret (firstActivePool allAccounts).

(** Fetch vault balances for a pool *)
Definition getVaultBalances (connection : Connection) (poolState : PoolState)
  : M VaultBalances :=
  await infos <-
    Promise_all2
      (request (GetTokenAccountBalance (token0Vault poolState))
         (fun t => getTokenAccountBalance connection t (token0Vault poolState)))
      (request (GetTokenAccountBalance (token1Vault poolState))
         (fun t => getTokenAccountBalance connection t (token1Vault poolState)));
  ret {| vault0Balance := fst infos; vault1Balance := snd infos |}.

(* ================================================================== *)
(** ** Quote *)

(** Apply fee to input first (Raydium applies fee before swap). *)
Definition feeMultiplier (feeBps : Z) : Result Z := BN.ofNumber (10000 - feeBps).

Definition feeDivisor : Z := 10000.

Definition amountInAfterFee (amountIn feeBps : Z) : Result Z :=
  let? feeMultiplier := feeMultiplier feeBps in
  BN.div (amountIn * feeMultiplier) feeDivisor.

(** Calculate swap output using constant product formula.  The result is
    the pair of [amountOut] and [priceImpact] (in hundredths of a percent). *)
Definition calculateSwapOutput (amountIn inputReserve outputReserve feeBps : Z)
  : Result (Z * Z) :=
  let? feeMultiplier := feeMultiplier feeBps in
  let? amountInAfterFee := amountInAfterFee amountIn feeBps in
  (* output = (amountInAfterFee * outputReserve) / (inputReserve + amountInAfterFee) *)
  let numerator := amountInAfterFee * outputReserve in
  let denominator := inputReserve + amountInAfterFee in
  let? amountOut := BN.div numerator denominator in
  (* Calculate price impact *)
  let? spotPrice := BN.div (outputReserve * 1000000000) inputReserve in
  let? projected := BN.div (amountIn * spotPrice) 1000000000 in
  let? expectedOutput := BN.div (projected * feeMultiplier) feeDivisor in
  let? priceImpact :=
    if expectedOutput =? 0 then Ok 0
    else
      let? actualRatio := BN.div (amountOut * 10000) expectedOutput in
      let? ratio := BN.toNumber actualRatio in
      Ok (Z.max 0 (10000 - ratio)) in
  Ok (amountOut, priceImpact).

(** Use more conservative slippage for low liquidity pools. *)
Definition isLowLiquidity (inputReserve : Z) : bool :=
  inputReserve <? 100000000.  (* < 0.1 SOL *)

Definition conservativeSlippage (inputReserve : Z) : Z :=
  if isLowLiquidity inputReserve then 1500 else 500.

Definition effectiveSlippageBps (inputReserve slippageBps : Z) : Z :=
  Z.max slippageBps (conservativeSlippage inputReserve).

Definition minimumAmountOutOf (amountOut inputReserve slippageBps : Z)
  : Result Z :=
  let? slippageMultiplier :=
    BN.ofNumber (10000 - effectiveSlippageBps inputReserve slippageBps) in
  BN.div (amountOut * slippageMultiplier) 10000.

(** Determine swap direction: the reserves seen as input and output. *)
Definition swapReserves (poolState : PoolState) (vaultBalances : VaultBalances)
  (inputMint : PublicKey) : Z * Z :=
  let isToken0ToToken1 := equals inputMint (token0Mint poolState) in
  let inputReserve :=
    if isToken0ToToken1 then vault0Balance vaultBalances
    else vault1Balance vaultBalances in
  let outputReserve :=
    if isToken0ToToken1 then vault1Balance vaultBalances
    else vault0Balance vaultBalances in
  (inputReserve, outputReserve).

(** [getSwapQuote] once the vault balances are known. *)
Definition quoteFromBalances (poolState : PoolState)
  (vaultBalances : VaultBalances) (inputMint outputMint : PublicKey)
  (amountIn slippageBps : Z) : Result SwapQuote :=
  let '(inputReserve, outputReserve) :=
    swapReserves poolState vaultBalances inputMint in
  let? (amountOut, priceImpact) :=
    calculateSwapOutput amountIn inputReserve outputReserve 100 in
  let? minimumAmountOut :=
    minimumAmountOutOf amountOut inputReserve slippageBps in
  Ok {| amountIn := amountIn;
        amountOut := amountOut;
        minimumAmountOut := minimumAmountOut;
        priceImpactBps := priceImpact;
        inputMint := inputMint;
        outputMint := outputMint |}.

(** Get swap quote for a token pair *)
Definition getSwapQuote (connection : Connection) (poolState : PoolState)
  (inputMint outputMint : PublicKey) (amountIn slippageBps : Z) : M SwapQuote :=
  await vaultBalances <- getVaultBalances connection poolState;
  lift (quoteFromBalances poolState vaultBalances inputMint outputMint
          amountIn slippageBps).

(** Get the token program for a mint *)
Definition getTokenProgramForMint (connection : Connection) (mint : PublicKey)
  : M PublicKey :=
  (* WSOL uses standard token program *)
  if equals mint NATIVE_MINT then ret TOKEN_PROGRAM_ID
  else
    await mintInfo <-
      request (GetAccountInfo mint) (fun t => getAccountInfo connection t mint);
    match mintInfo with
    | None =>
        throw (JsError (String.append "Mint account not found: " (toBase58 mint)))
    | Some mintInfo => ret (account_owner mintInfo)
    end.

(* ================================================================== *)
(** ** Swap instruction *)

Record AccountMeta : Type := mkAccountMeta {
  pubkey : PublicKey;
  isSigner : bool;
  isWritable : bool
}.

Record TransactionInstruction : Type := mkTransactionInstruction {
  programId : PublicKey;
  keys : list AccountMeta;
  data : Buffer
}.

(** Determine vault order based on whether input is token0 or token1. *)
Definition swapVaults (poolState : PoolState) (inputMint : PublicKey)
  : PublicKey * PublicKey :=
  let isInputToken0 := equals inputMint (token0Mint poolState) in
  let inputVault :=
    if isInputToken0 then token0Vault poolState else token1Vault poolState in
  let outputVault :=
    if isInputToken0 then token1Vault poolState else token0Vault poolState in
  (inputVault, outputVault).

(** Build the swap instruction for Raydium CPMM *)
Definition buildSwapInstruction (poolState : PoolState) (payer : PublicKey)
  (inputTokenAccount outputTokenAccount : PublicKey)
  (inputMint outputMint : PublicKey)
  (inputTokenProgram outputTokenProgram : PublicKey)
  (amountIn minimumAmountOut : Z) : Result TransactionInstruction :=
  (* Use hardcoded authority (same as SDK) *)
  let authority := RAYDIUM_CPMM_AUTHORITY in
  let '(inputVault, outputVault) := swapVaults poolState inputMint in
  (* [8 bytes discriminator][8 bytes amount_in][8 bytes minimum_amount_out] *)
  let? amountInBytes := writeBigUInt64LE amountIn in
  let? minimumAmountOutBytes := writeBigUInt64LE minimumAmountOut in
  let data :=
    SWAP_BASE_INPUT_DISCRIMINATOR ++ amountInBytes ++ minimumAmountOutBytes in
  (* Order matters! Must match the program's expected account order *)
  let accounts :=
    [ {| pubkey := payer; isSigner := true; isWritable := true |};
      {| pubkey := authority; isSigner := false; isWritable := false |};
      {| pubkey := ammConfig poolState; isSigner := false; isWritable := false |};
      {| pubkey := address poolState; isSigner := false; isWritable := true |};
      {| pubkey := inputTokenAccount; isSigner := false; isWritable := true |};
      {| pubkey := outputTokenAccount; isSigner := false; isWritable := true |};
      {| pubkey := inputVault; isSigner := false; isWritable := true |};
      {| pubkey := outputVault; isSigner := false; isWritable := true |};
      {| pubkey := inputTokenProgram; isSigner := false; isWritable := false |};
      {| pubkey := outputTokenProgram; isSigner := false; isWritable := false |};
      {| pubkey := inputMint; isSigner := false; isWritable := false |};
      {| pubkey := outputMint; isSigner := false; isWritable := false |};
      {| pubkey := observationKey poolState; isSigner := false; isWritable := true |} ] in
  Ok {| programId := RAYDIUM_CPMM_PROGRAM_ID; keys := accounts; data := data |}.

(* ================================================================== *)
(** ** Transaction assembly *)

(** The instructions built by library constructors are kept symbolic;
    the swap instruction is carried in full. *)
Inductive Instruction : Type :=
| SetComputeUnitLimit (units : Z)
| SetComputeUnitPrice (microLamports : Z)
| CreateAccountWithSeed (fromPubkey newAccountPubkey basePubkey : PublicKey)
    (seed : string) (lamports space : Z) (programId : PublicKey)
| InitializeAccount (account mint owner programId : PublicKey)
| CreateAssociatedTokenAccountIdempotent
    (payer associatedToken owner mint programId : PublicKey)
| CloseAccount (account destination authority programId : PublicKey)
| Swap (instruction : TransactionInstruction).

(** Addition of two integer-valued JavaScript numbers whose sum is below
    2^54 in absolute value: exact up to 2^53, rounded to the nearest even
    double above. *)
Definition Number_add (a b : Z) : Z :=
  let s := a + b in
  if Z.abs s <=? 2 ^ 53 then s
  else if Z.even s then s
  else if (s + 1) mod 4 =? 0 then s + 1 else s - 1.

Record TempWsolAccount : Type := mkTempWsolAccount {
  wsolAccount : PublicKey;
  tempSeed : string;
  createInstruction : Instruction;
  initInstruction : Instruction
}.

(** Create a temporary WSOL account using seed derivation *)
Definition createTempWsolAccount (pf : Platform) (payer : PublicKey)
  (amountLamports : Z) : M TempWsolAccount :=
  (* Generate random seed for unique account address *)
  await randomKeypair <- Keypair_generate pf;
  let seed := String.substring 0 32 (toBase58 randomKeypair) in
  (* Derive WSOL account address using seed *)
  let wsolAccount := createWithSeed pf payer seed TOKEN_PROGRAM_ID in
  (* Total lamports = rent + swap amount *)
  await amount <- lift (BN.toNumber amountLamports);
  let lamports := Number_add TOKEN_ACCOUNT_RENT amount in
  let createInstruction :=
    CreateAccountWithSeed payer wsolAccount payer seed lamports ACCOUNT_SIZE
      TOKEN_PROGRAM_ID in
  let initInstruction :=
    InitializeAccount wsolAccount NATIVE_MINT payer TOKEN_PROGRAM_ID in
  ret {| wsolAccount := wsolAccount;
         tempSeed := seed;
         createInstruction := createInstruction;
         initInstruction := initInstruction |}.

(** The message handed to [compileToV0Message]; its compiled form is not
    modelled. *)
Record Transaction : Type := mkTransaction {
  payerKey : PublicKey;
  recentBlockhash : string;
  instructions : list Instruction
}.

Record SwapTransaction : Type := mkSwapTransaction {
  transaction : Transaction;
  quote : SwapQuote;
  poolState : PoolState
}.

Definition optionToList {A} (o : option A) (f : A -> list Instruction)
  : list Instruction :=
  match o with Some a => f a | None => [] end.

(** Create a complete swap transaction with all necessary instructions *)
Definition createSwapTransaction (pf : Platform) (connection : Connection)
  (payer inputMint outputMint : PublicKey) (amountIn slippageBps : Z)
  (poolAddress : option PublicKey) : M SwapTransaction :=
  (* Check if we're dealing with native SOL *)
  let isInputSOL := equals inputMint NATIVE_MINT in
  let isOutputSOL := equals outputMint NATIVE_MINT in
  await poolState <-
    match poolAddress with
    | Some poolAddress => getPoolStateByAddress connection poolAddress
    | None => findPoolByTokenPair connection inputMint outputMint
    end;
  match poolState with
  | None =>
      throw (JsError
        (String.append "No Raydium CPMM pool found for "
          (String.append (toBase58 inputMint)
            (String.append " and " (toBase58 outputMint)))))
  | Some poolState =>
      (* Get swap quote *)
      await quote <-
        getSwapQuote connection poolState inputMint outputMint amountIn
          slippageBps;
      (* Determine token programs *)
      await inputTokenProgram <- getTokenProgramForMint connection inputMint;
      await outputTokenProgram <- getTokenProgramForMint connection outputMint;
      (* Add compute budget instructions for priority fee *)
      let instructions0 :=
        [ SetComputeUnitLimit 300000; SetComputeUnitPrice 50000 ] in
      (* ========== Handle Input Token Account ========== *)
      await inputSide <-
        (if isInputSOL then
           await temp <- createTempWsolAccount pf payer amountIn;
           ret (wsolAccount temp, Some (wsolAccount temp),
                [ createInstruction temp; initInstruction temp ])
         else
           await ata <-
             lift (getAssociatedTokenAddressSync pf inputMint payer false
                     inputTokenProgram);
           ret (ata, None, []));
      let '(inputTokenAccount, tempWsolInputAccount, inputSetup) := inputSide in
      let instructions1 := instructions0 ++ inputSetup in
      (* ========== Handle Output Token Account ========== *)
      await outputSide <-
        (if isOutputSOL then
           (* For output, we only need rent (no initial amount) *)
           await temp <- createTempWsolAccount pf payer 0;
           ret (wsolAccount temp, Some (wsolAccount temp),
                [ createInstruction temp; initInstruction temp ])
         else
           await ata <-
             lift (getAssociatedTokenAddressSync pf outputMint payer false
                     outputTokenProgram);
           ret (ata, None,
                [ CreateAssociatedTokenAccountIdempotent payer ata payer
                    outputMint outputTokenProgram ]));
      let '(outputTokenAccount, tempWsolOutputAccount, outputSetup) := outputSide in
      let instructions2 := instructions1 ++ outputSetup in
      (* Build swap instruction *)
      await swapInstruction <-
        lift (buildSwapInstruction poolState payer inputTokenAccount
                outputTokenAccount inputMint outputMint inputTokenProgram
                outputTokenProgram
                (let '{| amountIn := a |} := quote in a)
                (let '{| minimumAmountOut := m |} := quote in m));
      let instructions3 := instructions2 ++ [ Swap swapInstruction ] in
      (* ========== Close temporary WSOL accounts ========== *)
      (* Close output WSOL account to get native SOL back *)
      let instructions4 :=
        instructions3 ++
        optionToList tempWsolOutputAccount
          (fun account => [ CloseAccount account payer payer TOKEN_PROGRAM_ID ]) in
      (* Close input WSOL account to recover rent *)
      let instructions5 :=
        instructions4 ++
        optionToList tempWsolInputAccount
          (fun account => [ CloseAccount account payer payer TOKEN_PROGRAM_ID ]) in
      (* Get latest blockhash *)
      await blockhash <-
        request GetLatestBlockhash (fun t => getLatestBlockhash connection t);
      (* Create versioned transaction *)
      ret {| transaction :=
               {| payerKey := payer;
                  recentBlockhash := blockhash;
                  instructions := instructions5 |};
             quote := quote;
             poolState := poolState |}
  end.

(** *** Reading an instruction list *)

(** The instructions that create, initialise or close a temporary
    wrapped-SOL account. *)
Definition isEphemeral (i : Instruction) : bool :=
  match i with
  | CreateAccountWithSeed _ _ _ _ _ _ _ => true
  | InitializeAccount _ _ _ _ => true
  | CloseAccount _ _ _ _ => true
  | _ => false
  end.

(** The instructions before the first swap instruction, and those after. *)
Fixpoint splitAtSwap (l : list Instruction)
  : list Instruction * list Instruction :=
  match l with
  | [] => ([], [])
  | Swap _ :: rest => ([], rest)
  | i :: rest => let (before, after) := splitAtSwap rest in (i :: before, after)
  end.

(** The ownership test of the direct lookup, and the state it leaves. *)
Definition ownedByCpmm (info : AccountInfo) : bool :=
  String.eqb (toBase58 (account_owner info)) (toBase58 RAYDIUM_CPMM_PROGRAM_ID).

Definition afterRead (addr : PublicKey) (w : World) : World :=
  {| rpc_log := rpc_log w ++ [GetAccountInfo addr];
     keypairs_drawn := keypairs_drawn w |}.

(** A computation that throws from every starting state. *)
Definition alwaysThrows {A} (m : M A) : Prop :=
  forall w, exists e w', m w = (Throw e, w').

(* ================================================================== *)
(** ** A sample ledger

    A small concrete ledger on which the definitions above can be run:
    one pool of wrapped SOL against a token, its two vaults, and the
    token's mint account. *)

Module Sample.

Definition poolAddress : PublicKey := mkPublicKey 1001.
Definition configKey : PublicKey := mkPublicKey 1002.
Definition creatorKey : PublicKey := mkPublicKey 1003.
Definition vault0 : PublicKey := mkPublicKey 1004.
Definition vault1 : PublicKey := mkPublicKey 1005.
Definition lpMintKey : PublicKey := mkPublicKey 1006.
Definition tokenMint : PublicKey := mkPublicKey 1007.
Definition observation : PublicKey := mkPublicKey 1008.
Definition foreignMint : PublicKey := mkPublicKey 1009.
Definition wallet : PublicKey := mkPublicKey 2001.
Definition otherProgram : PublicKey := mkPublicKey 3001.

(** A 637-byte pool record: discriminator, the ten addresses, the five
    one-byte fields, six counters, and the rest of the account. *)
Definition poolData : Buffer :=
  map byte_of_Z [247; 237; 227; 245; 215; 195; 222; 70]
  ++ toBytes configKey ++ toBytes creatorKey
  ++ toBytes vault0 ++ toBytes vault1 ++ toBytes lpMintKey
  ++ toBytes NATIVE_MINT ++ toBytes tokenMint
  ++ toBytes TOKEN_PROGRAM_ID ++ toBytes TOKEN_PROGRAM_ID
  ++ toBytes observation
  ++ map byte_of_Z [254; 0; 9; 9; 6]
  ++ le_encode 8 5000000 ++ le_encode 8 11 ++ le_encode 8 12
  ++ le_encode 8 13 ++ le_encode 8 14 ++ le_encode 8 1700000000
  ++ repeat x01 256.

Definition pool : PoolState :=
  {| address := poolAddress;
     ammConfig := configKey;
     poolCreator := creatorKey;
     token0Vault := vault0;
     token1Vault := vault1;
     lpMint := lpMintKey;
     token0Mint := NATIVE_MINT;
     token1Mint := tokenMint;
     token0Program := TOKEN_PROGRAM_ID;
     token1Program := TOKEN_PROGRAM_ID;
     observationKey := observation;
     authBump := Some (byte_of_Z 254);
     status := Some x00;
     lpMintDecimals := Some (byte_of_Z 9);
     mint0Decimals := Some (byte_of_Z 9);
     mint1Decimals := Some (byte_of_Z 6);
     lpSupply := 5000000;
     protocolFeesToken0 := 11;
     protocolFeesToken1 := 12;
     fundFeesToken0 := 13;
     fundFeesToken1 := 14;
     openTime := 1700000000 |}.

Definition balances : VaultBalances :=
  {| vault0Balance := 1000000; vault1Balance := 2000000 |}.

(** The ledger holding the pool; [poolOwner] is the program that owns
    the pool account. *)
Definition ledger (poolOwner : PublicKey) : Connection :=
  {| getAccountInfo := fun _ a =>
       if equals a poolAddress
       then Ok (Some {| account_owner := poolOwner; account_data := poolData |})
       else if equals a tokenMint
       then Ok (Some {| account_owner := TOKEN_PROGRAM_ID; account_data := [] |})
       else Ok None;
     getProgramAccounts := fun _ _ _ => Ok [];
     getTokenAccountBalance := fun _ a =>
       if equals a vault0 then Ok 1000000
       else if equals a vault1 then Ok 2000000
       else Throw (RpcFailure "could not find account");
     getLatestBlockhash := fun _ => Ok "EkSnNWid2cvwEVnVx9aBqawnmiCNiDgp3gUdkDPTKN1N"%string |}.

Definition connection : Connection := ledger RAYDIUM_CPMM_PROGRAM_ID.

(** The same ledger without any account at the pool address. *)
Definition emptyLedger : Connection :=
  {| getAccountInfo := fun _ _ => Ok None;
     getProgramAccounts := fun _ _ _ => Ok [];
     getTokenAccountBalance := fun _ _ => Throw (RpcFailure "could not find account");
     getLatestBlockhash := fun _ => Ok "EkSnNWid2cvwEVnVx9aBqawnmiCNiDgp3gUdkDPTKN1N"%string |}.

Fixpoint checksum (s : string) : Z :=
  match s with
  | EmptyString => 0
  | String c rest => Z.of_nat (Ascii.nat_of_ascii c) + 31 * checksum rest
  end.

(** Stand-ins for the random keypairs and the hashed derivations. *)
Definition platform : Platform :=
  {| generateKeypair := fun n => mkPublicKey (5000 + Z.of_nat n);
     createWithSeed := fun base seed program =>
       mkPublicKey (pk_bn base + checksum seed);
     getAssociatedTokenAddressSync := fun mint owner _ program =>
       Ok (mkPublicKey (pk_bn mint + pk_bn owner + 1)) |}.

Definition world0 : World := {| rpc_log := []; keypairs_drawn := 0 |}.

End Sample.

(* ================================================================== *)
(** ** The client class *)

(** Raydium CPMM client for easy integration.  The class only holds the
    connection, which is passed explicitly here. *)
Module RaydiumCPMM.

(** Find a pool for trading between two tokens *)
Definition findPool (connection : Connection) (tokenA tokenB : PublicKey)
  : M (option PoolState) :=
  findPoolByTokenPair connection tokenA tokenB.

(** Get a quote for swapping tokens: the quote together with the pool
    it was computed on. *)
Definition getQuote (connection : Connection) (inputMint outputMint : PublicKey)
  (amountIn slippageBps : Z) : M (SwapQuote * PoolState) :=
  await poolState <- findPoolByTokenPair connection inputMint outputMint;
  match poolState with
  | None =>
      throw (JsError
        (String.append "No Raydium CPMM pool found for "
          (String.append (toBase58 inputMint)
            (String.append " and " (toBase58 outputMint)))))
  | Some poolState =>
      await quote <-
        getSwapQuote connection poolState inputMint outputMint amountIn
          slippageBps;
      ret (quote, poolState)
  end.

(** Create a swap transaction *)
Definition createSwapTransaction (pf : Platform) (connection : Connection)
  (payer inputMint outputMint : PublicKey) (amountIn slippageBps : Z)
  (poolAddress : option PublicKey) : M SwapTransaction :=
  createSwapTransaction pf connection payer inputMint outputMint amountIn
    slippageBps poolAddress.

(** Get pool state by address directly *)
Definition getPoolByAddress (connection : Connection) (poolAddress : PublicKey)
  : M (option PoolState) :=
  getPoolStateByAddress connection poolAddress.

End RaydiumCPMM.

(* ================================================================== *)
(** ** Vocabulary of the properties *)

(** The message of the error thrown when no pool is found. *)
Definition noPoolMessage (inputMint outputMint : PublicKey) : string :=
  String.append "No Raydium CPMM pool found for "
    (String.append (toBase58 inputMint)
      (String.append " and " (toBase58 outputMint))).

(** The quote in closed form, with floor division on unsigned values. *)
Definition effectiveInOf (amountIn feeBps : Z) : Z :=
  amountIn * (10000 - feeBps) / 10000.

Definition constantProductOut (amountIn inputReserve outputReserve feeBps : Z)
  : Z :=
  effectiveInOf amountIn feeBps * outputReserve
  / (inputReserve + effectiveInOf amountIn feeBps).

Definition expectedOutputOf (amountIn inputReserve outputReserve feeBps : Z)
  : Z :=
  amountIn * (outputReserve * 1000000000 / inputReserve) / 1000000000
  * (10000 - feeBps) / 10000.

Definition priceImpactOf (amountIn inputReserve outputReserve feeBps : Z) : Z :=
  if expectedOutputOf amountIn inputReserve outputReserve feeBps =? 0 then 0
  else Z.max 0
         (10000 - constantProductOut amountIn inputReserve outputReserve feeBps
                  * 10000
                  / expectedOutputOf amountIn inputReserve outputReserve feeBps).

(** A candidate account whose status byte, at offset 329, is zero. *)
Definition hasActiveStatus (candidate : PublicKey * AccountInfo) : Prop :=
  nth_error (account_data (snd candidate)) POOL_STATE_LAYOUT.STATUS = Some x00.

(** What a search contributes to the merged candidates: its answer, or
    nothing when the request was rejected. *)
Definition foundAccounts (answer : Result (list (PublicKey * AccountInfo)))
  : list (PublicKey * AccountInfo) :=
  match answer with
  | Ok accounts => accounts
  | Throw _ => []
  end.

(** A ledger whose answers to searches do not change over time. *)
Definition stableSearch (connection : Connection) : Prop :=
  forall t t' program filters,
    getProgramAccounts connection t program filters
    = getProgramAccounts connection t' program filters.

(** A ledger that reports only unsigned balances. *)
Definition unsignedBalances (connection : Connection) : Prop :=
  forall t account v,
    getTokenAccountBalance connection t account = Ok v -> 0 <= v.

(** The state after some more requests and keypair draws. *)
Definition advance (calls : list RpcCall) (draws : nat) (w : World) : World :=
  {| rpc_log := rpc_log w ++ calls;
     keypairs_drawn := keypairs_drawn w + draws |}.

Definition mintLookup (mint : PublicKey) : list RpcCall :=
  if equals mint NATIVE_MINT then [] else [GetAccountInfo mint].

(** The requests of the pool lookup: one read with a pool address, the
    two searches without. *)
Definition poolLookupCalls (inputMint outputMint : PublicKey)
  (poolAddress : option PublicKey) : list RpcCall :=
  match poolAddress with
  | Some a => [GetAccountInfo a]
  | None =>
      [ GetProgramAccounts RAYDIUM_CPMM_PROGRAM_ID
          (searchFilters inputMint outputMint);
        GetProgramAccounts RAYDIUM_CPMM_PROGRAM_ID
          (searchFilters outputMint inputMint) ]
  end.

(** Step 1 of the builder: by address when one is given, else by pair. *)
Definition poolLookup (connection : Connection) (inMint outMint : PublicKey)
  (poolAddr : option PublicKey) : M (option PoolState) :=
  match poolAddr with
  | Some a => getPoolStateByAddress connection a
  | None => findPoolByTokenPair connection inMint outMint
  end.

Definition vaultReads (pool : PoolState) : list RpcCall :=
  [ GetTokenAccountBalance (token0Vault pool);
    GetTokenAccountBalance (token1Vault pool) ].

Definition isSwap (i : Instruction) : bool :=
  match i with Swap _ => true | _ => false end.

(** A second sample ledger, for the search by token pair: the sample
    pool is found when wrapped SOL is asked in the first slot, after an
    inactive and a truncated candidate. *)
Module SampleSearch.

Definition filter_eqb (f g : Filter) : bool :=
  match f, g with
  | DataSize a, DataSize b => Nat.eqb a b
  | Memcmp o1 b1, Memcmp o2 b2 => Nat.eqb o1 o2 && String.eqb b1 b2
  | _, _ => false
  end.

Fixpoint filters_eqb (l1 l2 : list Filter) : bool :=
  match l1, l2 with
  | [], [] => true
  | f :: r1, g :: r2 => filter_eqb f g && filters_eqb r1 r2
  | _, _ => false
  end.

(** The sample record with its status byte set to 1 (not active). *)
Definition inactiveData : Buffer :=
  firstn 329 Sample.poolData ++ [x01] ++ skipn 330 Sample.poolData.

Definition candidates : list (PublicKey * AccountInfo) :=
  [ (mkPublicKey 1101,
     {| account_owner := RAYDIUM_CPMM_PROGRAM_ID; account_data := inactiveData |});
    (mkPublicKey 1102,
     {| account_owner := RAYDIUM_CPMM_PROGRAM_ID;
        account_data := firstn 100 Sample.poolData |});
    (Sample.poolAddress,
     {| account_owner := RAYDIUM_CPMM_PROGRAM_ID;
        account_data := Sample.poolData |}) ].

Definition connection : Connection :=
  {| getAccountInfo := getAccountInfo Sample.connection;
     getProgramAccounts := fun _ _ filters =>
       if filters_eqb filters (searchFilters NATIVE_MINT Sample.tokenMint)
       then Ok candidates
       else Throw (RpcFailure "429 Too Many Requests");
     getTokenAccountBalance := getTokenAccountBalance Sample.connection;
     getLatestBlockhash := getLatestBlockhash Sample.connection |}.

End SampleSearch.

(* ================================================================== *)
(** * Properties *)

(** ** Arithmetic of the quote *)

Section QuoteArithmetic.

Lemma Ok_inj {A} (a b : A) : Ok a = Ok b -> a = b.
Proof. intros H. injection H as H. exact H. Qed.

Lemma BN_div_nonneg a b q :
  0 <= a -> 0 <= b -> BN.div a b = Ok q -> 0 < b /\ q = a / b.
Proof.
  unfold BN.div. intros Ha Hb.
  destruct (Z.eqb_spec b 0) as [->|Hne]; [discriminate|].
  intros [= <-]. split; [lia|]. apply Z.quot_div_nonneg; lia.
Qed.

Lemma BN_div_pos a b : b <> 0 -> BN.div a b = Ok (Z.quot a b).
Proof.
  unfold BN.div. intros Hb. destruct (Z.eqb_spec b 0); [contradiction|reflexivity].
Qed.

Lemma BN_ofNumber_small n : Z.abs n < 2 ^ 53 -> BN.ofNumber n = Ok n.
Proof.
  unfold BN.ofNumber. intros H.
  destruct (Z.ltb_spec (Z.abs n) (2 ^ 53)); [reflexivity|lia].
Qed.

Lemma BN_toNumber_small a : 0 <= a < 2 ^ 53 -> BN.toNumber a = Ok a.
Proof.
  unfold BN.toNumber, BN.bitLength. intros [H0 H1].
  destruct (Z.eqb_spec a 0) as [->|Hne]; [reflexivity|].
  rewrite Z.abs_eq by lia.
  assert (Z.log2 a < 53) by (apply Z.log2_lt_pow2; lia).
  destruct (Z.leb_spec (Z.log2 a + 1) 53); [reflexivity|lia].
Qed.

Lemma effectiveSlippageBps_floor inputReserve slippageBps :
  500 <= effectiveSlippageBps inputReserve slippageBps.
Proof.
  unfold effectiveSlippageBps, conservativeSlippage.
  destruct (isLowLiquidity inputReserve); lia.
Qed.

Lemma effectiveSlippageBps_upper inputReserve slippageBps :
  slippageBps < 10000 -> effectiveSlippageBps inputReserve slippageBps < 10000.
Proof.
  unfold effectiveSlippageBps, conservativeSlippage.
  destruct (isLowLiquidity inputReserve); lia.
Qed.

Lemma minimumAmountOutOf_eq amountOut inputReserve slippageBps :
  0 <= slippageBps < 10000 ->
  minimumAmountOutOf amountOut inputReserve slippageBps =
  Ok (Z.quot (amountOut * (10000 - effectiveSlippageBps inputReserve slippageBps))
             10000).
Proof.
  intros Hs. unfold minimumAmountOutOf.
  pose proof (effectiveSlippageBps_floor inputReserve slippageBps).
  pose proof (effectiveSlippageBps_upper inputReserve slippageBps ltac:(lia)).
  rewrite BN_ofNumber_small by (change (2 ^ 53) with 9007199254740992; lia).
  cbn [rbind]. apply BN_div_pos. lia.
Qed.

Lemma minimumAmountOutOf_le amountOut inputReserve slippageBps m :
  0 <= amountOut -> 0 <= slippageBps < 10000 ->
  minimumAmountOutOf amountOut inputReserve slippageBps = Ok m ->
  0 <= m <= amountOut.
Proof.
  intros Ho Hs. rewrite minimumAmountOutOf_eq by assumption.
  intros E. apply Ok_inj in E. subst m.
  pose proof (effectiveSlippageBps_floor inputReserve slippageBps).
  pose proof (effectiveSlippageBps_upper inputReserve slippageBps ltac:(lia)).
  set (k := 10000 - effectiveSlippageBps inputReserve slippageBps).
  assert (Hk : 0 < k <= 9500) by (subst k; lia). clearbody k.
  rewrite Z.quot_div_nonneg by nia.
  split.
  - apply Z.div_pos; nia.
  - apply Z.div_le_upper_bound; nia.
Qed.

Lemma calculateSwapOutput_nonneg amountIn inputReserve outputReserve feeBps out pi :
  0 <= amountIn -> 0 <= inputReserve -> 0 <= outputReserve ->
  0 <= feeBps < 10000 ->
  calculateSwapOutput amountIn inputReserve outputReserve feeBps = Ok (out, pi) ->
  0 <= out.
Proof.
  intros Ha Hi Ho Hf. unfold calculateSwapOutput, amountInAfterFee, feeMultiplier.
  rewrite BN_ofNumber_small by (change (2 ^ 53) with 9007199254740992; lia).
  cbn [rbind]. rewrite BN_div_pos by (unfold feeDivisor; lia). cbn [rbind].
  set (a' := Z.quot (amountIn * (10000 - feeBps)) feeDivisor).
  assert (Ha' : 0 <= a').
  { subst a'. unfold feeDivisor. rewrite Z.quot_div_nonneg by nia.
    apply Z.div_pos; nia. }
  destruct (BN.div (a' * outputReserve) (inputReserve + a')) as [q|] eqn:Hq;
    [|discriminate].
  apply BN_div_nonneg in Hq; [|nia|lia]. destruct Hq as [Hden ->].
  cbn [rbind].
  repeat match goal with
         | |- context [rbind ?r _] =>
             destruct r; cbn [rbind]; try discriminate
         | |- context [if ?c then _ else _] => destruct c
         end;
    intros [= <- _]; apply Z.div_pos; nia.
Qed.


Lemma actualRatio_bound aIn inR outR m :
  0 <= aIn -> 0 < inR -> 0 <= outR -> 0 < m <= 10000 ->
  let a' := aIn * m / 10000 in
  let out := a' * outR / (inR + a') in
  let S := outR * 1000000000 / inR in
  let X := aIn * S / 1000000000 in
  let E := X * m / 10000 in
  E <> 0 -> 0 <= out * 10000 / E < 80000.
Proof.
  intros Ha Hi Ho Hm a' out S X E HE.
  assert (Ha' : 0 <= a') by (apply Z.div_pos; nia).
  assert (H1 : 10000 * a' <= aIn * m) by (apply Z.mul_div_le; lia).
  assert (Hout : 0 <= out) by (apply Z.div_pos; nia).
  assert (H2 : (inR + a') * out <= a' * outR) by (apply Z.mul_div_le; lia).
  assert (HS : 0 <= S) by (apply Z.div_pos; nia).
  assert (H3 : outR * 1000000000 < inR * Z.succ S) by (apply Z.mul_succ_div_gt; lia).
  assert (HX : 0 <= X) by (apply Z.div_pos; nia).
  assert (H4 : aIn * S < 1000000000 * Z.succ X) by (apply Z.mul_succ_div_gt; lia).
  assert (H4' : 1000000000 * X <= aIn * S) by (apply Z.mul_div_le; lia).
  assert (HE0 : 0 <= E) by (apply Z.div_pos; nia).
  assert (H5 : X * m < 10000 * Z.succ E) by (apply Z.mul_succ_div_gt; lia).
  assert (H5' : 10000 * E <= X * m) by (apply Z.mul_div_le; lia).
  clearbody a' out S X E.
  assert (HE1 : 1 <= E) by lia.
  assert (HX1 : 1 <= X) by nia.
  assert (HS1 : 1 <= S) by nia.
  assert (Hkey : out < 8 * E).
  { destruct (Z.eq_dec a' 0) as [Hz|Hnz].
    - subst a'. nia.
    - assert (A1 : out * inR <= a' * outR) by nia.
      assert (A2 : out * 1000000000 < a' * (S + 1)).
      { assert (out * inR * 1000000000 < a' * (S + 1) * inR) by nia. nia. }
      assert (A3 : out * 1000000000 * 10000 < aIn * m * (S + 1)) by nia.
      assert (A4 : aIn * m * (S + 1) <= 2 * (aIn * S) * m) by nia.
      assert (A5 : 2 * (aIn * S) * m < 2 * (1000000000 * (X + 1)) * m) by nia.
      assert (A6 : out * 10000 < 2 * (X + 1) * m) by nia.
      assert (A7 : 2 * (X + 1) * m <= 4 * (X * m)) by nia.
      nia. }
  split.
  - apply Z.div_pos; nia.
  - apply Z.div_lt_upper_bound; nia.
Qed.

(** With unsigned amounts and a funded input vault the computation does
    not throw, and its output is the floor of the constant-product
    formula. *)
Lemma calculateSwapOutput_ok amountIn inputReserve outputReserve feeBps :
  0 <= amountIn -> 0 < inputReserve -> 0 <= outputReserve ->
  0 <= feeBps < 10000 ->
  exists pi,
    calculateSwapOutput amountIn inputReserve outputReserve feeBps =
    Ok (let effectiveIn := amountIn * (10000 - feeBps) / 10000 in
        effectiveIn * outputReserve / (inputReserve + effectiveIn), pi).
Proof.
  intros Ha Hi Ho Hf.
  pose proof (actualRatio_bound amountIn inputReserve outputReserve
                (10000 - feeBps) Ha Hi Ho ltac:(lia)) as Hr.
  cbv zeta in Hr |- *.
  unfold calculateSwapOutput, amountInAfterFee, feeMultiplier, feeDivisor.
  rewrite BN_ofNumber_small by (change (2 ^ 53) with 9007199254740992; lia).
  cbn [rbind]. rewrite BN_div_pos by lia. cbn [rbind].
  rewrite (Z.quot_div_nonneg (amountIn * _)) by nia.
  set (a' := amountIn * (10000 - feeBps) / 10000) in *.
  assert (Ha' : 0 <= a') by (apply Z.div_pos; nia).
  rewrite BN_div_pos by lia. cbn [rbind].
  rewrite (Z.quot_div_nonneg (a' * _)) by nia.
  set (out := a' * outputReserve / (inputReserve + a')) in *.
  rewrite BN_div_pos by lia. cbn [rbind].
  rewrite (Z.quot_div_nonneg (outputReserve * _)) by nia.
  set (S := outputReserve * 1000000000 / inputReserve) in *.
  assert (HS : 0 <= S) by (apply Z.div_pos; nia).
  rewrite BN_div_pos by lia. cbn [rbind].
  rewrite (Z.quot_div_nonneg (amountIn * _)) by nia.
  set (X := amountIn * S / 1000000000) in *.
  assert (HX : 0 <= X) by (apply Z.div_pos; nia).
  rewrite BN_div_pos by lia. cbn [rbind].
  rewrite (Z.quot_div_nonneg (X * _)) by nia.
  set (E := X * (10000 - feeBps) / 10000) in *.
  assert (HE : 0 <= E) by (apply Z.div_pos; nia).
  assert (Hout : 0 <= out) by (apply Z.div_pos; nia).
  destruct (Z.eqb_spec E 0) as [HE0|HE0]; cbn [rbind].
  - eexists; reflexivity.
  - specialize (Hr HE0).
    rewrite BN_div_pos by assumption. cbn [rbind].
    rewrite (Z.quot_div_nonneg (out * _)) by nia.
    rewrite BN_toNumber_small
      by (change (2 ^ 53) with 9007199254740992; lia).
    cbn [rbind]. eexists; reflexivity.
Qed.

End QuoteArithmetic.

(** ** The quote on the ledger *)

Section QuoteOnLedger.

Variable connection : Connection.

Lemma getSwapQuote_inv pool inMint outMint aIn slip w q w' :
  getSwapQuote connection pool inMint outMint aIn slip w = (Ok q, w') ->
  exists balances,
    getVaultBalances connection pool w = (Ok balances, w') /\
    quoteFromBalances pool balances inMint outMint aIn slip = Ok q.
Proof.
  unfold getSwapQuote, bind, lift.
  destruct (getVaultBalances connection pool w) as [[vb|e] w1].
  - intros [= Hq <-]. exists vb. split; [reflexivity|exact Hq].
  - discriminate.
Qed.

Lemma quoteFromBalances_inv pool balances inMint outMint aIn slip q :
  quoteFromBalances pool balances inMint outMint aIn slip = Ok q ->
  exists pi,
    calculateSwapOutput aIn (fst (swapReserves pool balances inMint))
      (snd (swapReserves pool balances inMint)) 100 = Ok (amountOut q, pi) /\
    minimumAmountOutOf (amountOut q) (fst (swapReserves pool balances inMint))
      slip = Ok (minimumAmountOut q) /\
    amountIn q = aIn /\ priceImpactBps q = pi /\
    inputMint q = inMint /\ outputMint q = outMint.
Proof.
  unfold quoteFromBalances.
  destruct (swapReserves pool balances inMint) as [inR outR]. cbn [fst snd].
  destruct (calculateSwapOutput aIn inR outR 100) as [[out pi]|e];
    cbn [rbind]; [|discriminate].
  destruct (minimumAmountOutOf out inR slip) as [m|e] eqn:Hm; cbn [rbind];
    [|discriminate].
  intros E. apply Ok_inj in E. subst q. cbn.
  exists pi. repeat split; try reflexivity. exact Hm.
Qed.

Lemma swapReserves_nonneg pool balances inMint :
  0 <= vault0Balance balances -> 0 <= vault1Balance balances ->
  0 <= fst (swapReserves pool balances inMint) /\
  0 <= snd (swapReserves pool balances inMint).
Proof.
  unfold swapReserves. destruct (equals inMint (token0Mint pool)); cbn; lia.
Qed.

End QuoteOnLedger.

(** C2.  For amountIn = 10_000, inputReserve = 1_000_000, outputReserve =
    2_000_000 and feeBps = 100 the quote computation yields effectiveIn =
    9_900 and amountOut = 19_605, the integer floor of
    9_900 * 2_000_000 / 1_009_900; with a requested slippage of 100 bps the
    input reserve is below the low-liquidity threshold, the effective
    slippage is 1500 bps, and the minimum-amount-out is 16_664, the floor
    of 19_605 * 8500 / 10000. *)
Theorem quote_worked_example :
  amountInAfterFee 10000 100 = Ok 9900 /\
  calculateSwapOutput 10000 1000000 2000000 100 = Ok (19605, 99) /\
  19605 = 9900 * 2000000 / 1009900 /\
  effectiveSlippageBps 1000000 100 = 1500 /\
  minimumAmountOutOf 19605 1000000 100 = Ok 16664 /\
  16664 = 19605 * 8500 / 10000 /\
  quoteFromBalances Sample.pool Sample.balances NATIVE_MINT Sample.tokenMint
    10000 100
  = Ok {| amountIn := 10000; amountOut := 19605; minimumAmountOut := 16664;
          priceImpactBps := 99; inputMint := NATIVE_MINT;
          outputMint := Sample.tokenMint |}.
Proof. repeat split; vm_compute; reflexivity. Qed.

(** C2, as stated, fails on both figures: for these inputs the code does
    not compute amountOut = 19_604, and the minimum-amount-out it derives
    at 100 bps requested slippage is not 19_407. *)
Lemma quote_worked_example_not_19604_19407 :
  (forall pi, calculateSwapOutput 10000 1000000 2000000 100 <> Ok (19604, pi)) /\
  (forall out pi m,
     calculateSwapOutput 10000 1000000 2000000 100 = Ok (out, pi) ->
     minimumAmountOutOf out 1000000 100 = Ok m ->
     m <> 19407) /\
  minimumAmountOutOf 19604 1000000 100 <> Ok 19407.
Proof.
  split; [|split].
  - intros pi H. vm_compute in H. discriminate H.
  - intros out pi m H. vm_compute in H. injection H as <- <-.
    intros Hm. vm_compute in Hm. injection Hm as <-. discriminate.
  - intros H. vm_compute in H. discriminate H.
Qed.

(** C3.  In every quote the effective slippage that derives the
    minimum-amount-out is max(requested, floor), where the floor is 1500
    bps when the input-side reserve is strictly below 100_000_000 and 500
    bps otherwise; so below 100_000_000 the effective slippage is at
    least 1500 whatever smaller value was requested. *)
Theorem effective_slippage_is_max_of_requested_and_floor
  (connection : Connection) (pool : PoolState) (inMint outMint : PublicKey)
  (aIn slip : Z) (w w' : World) (q : SwapQuote) :
  getSwapQuote connection pool inMint outMint aIn slip w = (Ok q, w') ->
  exists balances,
    getVaultBalances connection pool w = (Ok balances, w') /\
    let inputReserve := fst (swapReserves pool balances inMint) in
    let conservativeFloor := if inputReserve <? 100000000 then 1500 else 500 in
    effectiveSlippageBps inputReserve slip = Z.max slip conservativeFloor /\
    minimumAmountOut q =
      Z.quot (amountOut q * (10000 - Z.max slip conservativeFloor)) 10000 /\
    (inputReserve < 100000000 -> 1500 <= effectiveSlippageBps inputReserve slip).
Proof.
  intros H. apply getSwapQuote_inv in H. destruct H as (vb & Hvb & Hq).
  exists vb. split; [exact Hvb|]. cbv zeta.
  apply quoteFromBalances_inv in Hq. destruct Hq as (pi & _ & Hmin & _).
  set (inR := fst (swapReserves pool vb inMint)) in *.
  assert (Heff : effectiveSlippageBps inR slip =
                 Z.max slip (if inR <? 100000000 then 1500 else 500))
    by reflexivity.
  split; [exact Heff|]. split.
  - unfold minimumAmountOutOf in Hmin. rewrite Heff in Hmin.
    unfold BN.ofNumber in Hmin.
    destruct (Z.abs _ <? 2 ^ 53); cbn [rbind] in Hmin; [|discriminate].
    rewrite BN_div_pos in Hmin by lia. apply Ok_inj in Hmin. symmetry. exact Hmin.
  - intros Hlow. rewrite Heff.
    destruct (Z.ltb_spec inR 100000000); lia.
Qed.

Lemma effective_slippage_witness :
  exists balances,
    getVaultBalances Sample.connection Sample.pool Sample.world0
      = (Ok balances,
         {| rpc_log := [GetTokenAccountBalance Sample.vault0;
                        GetTokenAccountBalance Sample.vault1];
            keypairs_drawn := 0 |}) /\
    effectiveSlippageBps (fst (swapReserves Sample.pool balances NATIVE_MINT)) 100
      = 1500.
Proof.
  destruct (effective_slippage_is_max_of_requested_and_floor
              Sample.connection Sample.pool NATIVE_MINT Sample.tokenMint
              10000 100 Sample.world0
              {| rpc_log := [GetTokenAccountBalance Sample.vault0;
                             GetTokenAccountBalance Sample.vault1];
                 keypairs_drawn := 0 |}
              {| amountIn := 10000; amountOut := 19605;
                 minimumAmountOut := 16664; priceImpactBps := 99;
                 inputMint := NATIVE_MINT; outputMint := Sample.tokenMint |}
              eq_refl) as (balances & Hb & Heff & _).
  exists balances. split; [exact Hb|].
  vm_compute in Hb. injection Hb as <-. reflexivity.
Defined.

(** C4.  For unsigned amounts and reserves, and feeBps and requested
    slippageBps in [0, 10000), every quote produced satisfies
    minimumAmountOut <= amountOut: for the output computed at any such fee
    rate, and for the quote record the module returns.  With a funded
    input vault a quote is indeed produced. *)
Theorem minimumAmountOut_le_amountOut
  (aIn inputReserve outputReserve feeBps slip : Z) :
  0 <= aIn -> 0 <= inputReserve -> 0 <= outputReserve ->
  0 <= feeBps < 10000 -> 0 <= slip < 10000 ->
  (forall out pi m,
     calculateSwapOutput aIn inputReserve outputReserve feeBps = Ok (out, pi) ->
     minimumAmountOutOf out inputReserve slip = Ok m ->
     m <= out) /\
  (forall pool balances inMint outMint q,
     swapReserves pool balances inMint = (inputReserve, outputReserve) ->
     quoteFromBalances pool balances inMint outMint aIn slip = Ok q ->
     minimumAmountOut q <= amountOut q) /\
  (0 < inputReserve ->
   exists out pi m,
     calculateSwapOutput aIn inputReserve outputReserve feeBps = Ok (out, pi) /\
     minimumAmountOutOf out inputReserve slip = Ok m /\
     m <= out).
Proof.
  intros Ha Hi Ho Hf Hs.
  assert (Hgen : forall fee out pi m, 0 <= fee < 10000 ->
            calculateSwapOutput aIn inputReserve outputReserve fee = Ok (out, pi) ->
            minimumAmountOutOf out inputReserve slip = Ok m -> m <= out).
  { intros fee out pi m Hfee Hout Hm.
    apply calculateSwapOutput_nonneg in Hout; try assumption.
    apply minimumAmountOutOf_le in Hm; try assumption. lia. }
  split; [|split].
  - intros out pi m. apply Hgen. exact Hf.
  - intros pool balances inMint outMint q Hres Hq.
    apply quoteFromBalances_inv in Hq. rewrite Hres in Hq. cbn [fst snd] in Hq.
    destruct Hq as (pi & Hout & Hm & _).
    apply (Hgen 100 _ pi); [lia|exact Hout|exact Hm].
  - intros Hpos.
    destruct (calculateSwapOutput_ok aIn inputReserve outputReserve feeBps
                Ha Hpos Ho Hf) as (pi & Hout).
    cbv zeta in Hout.
    set (out := aIn * (10000 - feeBps) / 10000 * outputReserve /
                (inputReserve + aIn * (10000 - feeBps) / 10000)) in *.
    exists out, pi.
    eexists. split; [exact Hout|]. split.
    + apply minimumAmountOutOf_eq. exact Hs.
    + eapply Hgen; [exact Hf|exact Hout|]. apply minimumAmountOutOf_eq. exact Hs.
Qed.

Lemma minimumAmountOut_le_amountOut_witness :
  exists out pi m,
    calculateSwapOutput 10000 1000000 2000000 100 = Ok (out, pi) /\
    minimumAmountOutOf out 1000000 100 = Ok m /\
    m <= out.
Proof.
  apply (minimumAmountOut_le_amountOut 10000 1000000 2000000 100 100); lia.
Defined.

(** ** Bytes *)

Section Bytes.

Lemma Z_of_byte_range b : 0 <= Z_of_byte b < 256.
Proof.
  unfold Z_of_byte. pose proof (Byte.to_N_bounded b). lia.
Qed.

Lemma byte_of_Z_of_byte b : byte_of_Z (Z_of_byte b) = b.
Proof.
  unfold byte_of_Z. rewrite Z.mod_small by apply Z_of_byte_range.
  unfold Z_of_byte. rewrite N2Z.id, Byte.of_to_N. reflexivity.
Qed.

Lemma Z_of_byte_of_Z z : Z_of_byte (byte_of_Z z) = z mod 256.
Proof.
  unfold byte_of_Z, Z_of_byte.
  assert (Hr : 0 <= z mod 256 < 256) by (apply Z.mod_pos_bound; lia).
  destruct (Byte.of_N (Z.to_N (z mod 256))) as [b|] eqn:Hb.
  - apply Byte.to_of_N in Hb. rewrite Hb. lia.
  - apply Byte.of_N_None_iff in Hb. lia.
Qed.

Lemma length_le_encode n v : List.length (le_encode n v) = n.
Proof.
  revert v. induction n as [|n IH]; intros v; cbn; [reflexivity|].
  now rewrite IH.
Qed.

Lemma le_decode_range bs : 0 <= le_decode bs < 256 ^ Z.of_nat (List.length bs).
Proof.
  induction bs as [|b bs IH]; cbn [le_decode List.length].
  - cbn. lia.
  - pose proof (Z_of_byte_range b).
    rewrite Nat2Z.inj_succ, Z.pow_succ_r by lia. lia.
Qed.

Lemma land_255 v : Z.land v 255 = v mod 256.
Proof. change 255 with (Z.ones 8). rewrite Z.land_ones by lia. reflexivity. Qed.

Lemma shiftr_8 v : Z.shiftr v 8 = v / 256.
Proof. rewrite Z.shiftr_div_pow2 by lia. reflexivity. Qed.

Lemma le_encode_le_decode bs : le_encode (List.length bs) (le_decode bs) = bs.
Proof.
  induction bs as [|b bs IH]; cbn [le_decode List.length le_encode];
    [reflexivity|].
  pose proof (Z_of_byte_range b).
  rewrite land_255, shiftr_8.
  replace ((Z_of_byte b + 256 * le_decode bs) mod 256) with (Z_of_byte b)
    by (apply Z.mod_unique with (q := le_decode bs); lia).
  replace ((Z_of_byte b + 256 * le_decode bs) / 256) with (le_decode bs)
    by (apply Z.div_unique with (r := Z_of_byte b); lia).
  rewrite byte_of_Z_of_byte, IH. reflexivity.
Qed.

Lemma le_decode_le_encode n v :
  0 <= v < 256 ^ Z.of_nat n -> le_decode (le_encode n v) = v.
Proof.
  revert v. induction n as [|n IH]; intros v Hv.
  - cbn in *. lia.
  - cbn [le_encode le_decode]. rewrite land_255, shiftr_8, Z_of_byte_of_Z.
    rewrite Nat2Z.inj_succ, Z.pow_succ_r in Hv by lia.
    rewrite IH.
    + rewrite Z.mod_mod by lia. pose proof (Z.div_mod v 256). lia.
    + split; [apply Z.div_pos; lia|].
      apply Z.div_lt_upper_bound; lia.
Qed.

End Bytes.

(** ** The swap instruction *)

Lemma equals_spec a b : equals a b = true <-> a = b.
Proof.
  unfold equals. destruct a as [x], b as [y]. cbn. rewrite Z.eqb_eq.
  split; [intros ->; reflexivity|intros [= ->]; reflexivity].
Qed.

Lemma equals_false a b : equals a b = false <-> a <> b.
Proof.
  rewrite <- equals_spec. destruct (equals a b); split; congruence.
Qed.

Lemma writeBigUInt64LE_ok v :
  0 <= v < 2 ^ 64 -> writeBigUInt64LE v = Ok (le_encode 8 v).
Proof.
  intros [H0 H1]. unfold writeBigUInt64LE.
  destruct (Z.leb_spec 0 v); [|lia].
  destruct (Z.ltb_spec v (2 ^ 64)); [reflexivity|lia].
Qed.

Lemma writeBigUInt64LE_inv v bs :
  writeBigUInt64LE v = Ok bs -> 0 <= v < 2 ^ 64 /\ bs = le_encode 8 v.
Proof.
  unfold writeBigUInt64LE.
  destruct (Z.leb_spec 0 v); destruct (Z.ltb_spec v (2 ^ 64)); cbn;
    try discriminate.
  intros E. apply Ok_inj in E. split; [lia|congruence].
Qed.

(** C1.  The instruction returned by buildSwapInstruction carries a
    24-byte payload: the discriminator [143,190,90,218,196,30,51,222],
    then amountIn, then minimumAmountOut, each as 8 little-endian bytes;
    and exactly 13 accounts in the order payer, pool authority, config,
    pool, caller input account, caller output account, input vault,
    output vault, input token program, output token program, input mint,
    output mint, observation.  The input vault is the pool's first vault
    exactly when inputMint is the pool's first mint, and the second vault
    otherwise.  An instruction is returned whenever both amounts are
    unsigned 64-bit integers. *)
Theorem buildSwapInstruction_layout
  (pool : PoolState) (payer inAcc outAcc inMint outMint inProg outProg : PublicKey)
  (aIn minOut : Z) :
  (0 <= aIn < 2 ^ 64 -> 0 <= minOut < 2 ^ 64 ->
   exists ix,
     buildSwapInstruction pool payer inAcc outAcc inMint outMint inProg outProg
       aIn minOut = Ok ix) /\
  (forall ix,
     buildSwapInstruction pool payer inAcc outAcc inMint outMint inProg outProg
       aIn minOut = Ok ix ->
     List.length (data ix) = 24%nat /\
     data ix = map byte_of_Z [143; 190; 90; 218; 196; 30; 51; 222]
               ++ le_encode 8 aIn ++ le_encode 8 minOut /\
     le_decode (subarray 8 16 (data ix)) = aIn /\
     le_decode (subarray 16 24 (data ix)) = minOut /\
     List.length (keys ix) = 13%nat /\
     exists inputVault outputVault,
       keys ix =
         [ mkAccountMeta payer true true;
           mkAccountMeta RAYDIUM_CPMM_AUTHORITY false false;
           mkAccountMeta (ammConfig pool) false false;
           mkAccountMeta (address pool) false true;
           mkAccountMeta inAcc false true;
           mkAccountMeta outAcc false true;
           mkAccountMeta inputVault false true;
           mkAccountMeta outputVault false true;
           mkAccountMeta inProg false false;
           mkAccountMeta outProg false false;
           mkAccountMeta inMint false false;
           mkAccountMeta outMint false false;
           mkAccountMeta (observationKey pool) false true ] /\
       (inMint = token0Mint pool ->
        inputVault = token0Vault pool /\ outputVault = token1Vault pool) /\
       (inMint <> token0Mint pool ->
        inputVault = token1Vault pool /\ outputVault = token0Vault pool)).
Proof.
  split.
  - intros Ha Hm. unfold buildSwapInstruction.
    destruct (swapVaults pool inMint) as [iv ov].
    rewrite (writeBigUInt64LE_ok aIn Ha), (writeBigUInt64LE_ok minOut Hm).
    cbn [rbind]. eexists. reflexivity.
  - intros ix. unfold buildSwapInstruction, swapVaults.
    destruct (writeBigUInt64LE aIn) as [ab|] eqn:Ha; cbn [rbind]; [|discriminate].
    destruct (writeBigUInt64LE minOut) as [mb|] eqn:Hm; cbn [rbind]; [|discriminate].
    apply writeBigUInt64LE_inv in Ha, Hm.
    destruct Ha as [Ha ->], Hm as [Hm ->].
    intros E. apply Ok_inj in E. subst ix. cbn [data keys].
    assert (Hsplit : forall a b : list byte,
               List.length a = 8%nat -> List.length b = 8%nat ->
               subarray 8 16 (SWAP_BASE_INPUT_DISCRIMINATOR ++ a ++ b) = a /\
               subarray 16 24 (SWAP_BASE_INPUT_DISCRIMINATOR ++ a ++ b) = b).
    { intros a b La Lb.
      do 9 (destruct a as [|? a]; try discriminate La).
      do 9 (destruct b as [|? b]; try discriminate Lb).
      split; reflexivity. }
    destruct (Hsplit (le_encode 8 aIn) (le_encode 8 minOut)
                (length_le_encode 8 aIn) (length_le_encode 8 minOut))
      as [-> ->].
    rewrite !le_decode_le_encode by (change (256 ^ Z.of_nat 8) with (2 ^ 64); lia).
    split; [rewrite !length_app, !length_le_encode; reflexivity|].
    do 4 (split; [reflexivity|]).
    eexists _, _. split; [reflexivity|].
    split; intros Hmint.
    + apply equals_spec in Hmint. rewrite Hmint. split; reflexivity.
    + apply equals_false in Hmint. rewrite Hmint. split; reflexivity.
Qed.

Lemma buildSwapInstruction_layout_witness :
  exists ix,
    buildSwapInstruction Sample.pool Sample.wallet (mkPublicKey 2311)
      (mkPublicKey 3009) NATIVE_MINT Sample.tokenMint TOKEN_PROGRAM_ID
      TOKEN_PROGRAM_ID 10000 16664 = Ok ix.
Proof.
  apply (buildSwapInstruction_layout Sample.pool Sample.wallet
           (mkPublicKey 2311) (mkPublicKey 3009) NATIVE_MINT Sample.tokenMint
           TOKEN_PROGRAM_ID TOKEN_PROGRAM_ID 10000 16664); lia.
Defined.

(** ** The pool-state codec *)

Section Codec.

Local Open Scope nat_scope.

Lemma firstn_add {A} (a b : nat) (l : list A) :
  firstn (a + b) l = firstn a l ++ firstn b (skipn a l).
Proof.
  revert l. induction a as [|a IH]; intros l; [reflexivity|].
  destruct l as [|x l]; cbn.
  - now rewrite firstn_nil.
  - now rewrite IH.
Qed.

Lemma subarray_app (s m e : nat) (d : Buffer) :
  s <= m <= e -> subarray s m d ++ subarray m e d = subarray s e d.
Proof.
  intros [Hsm Hme]. unfold subarray.
  replace (e - s) with ((m - s) + (e - m)) by lia.
  rewrite firstn_add, skipn_skipn.
  replace (m - s + s) with m by lia. reflexivity.
Qed.

Lemma length_subarray (s e : nat) (d : Buffer) :
  s <= e <= List.length d -> List.length (subarray s e d) = e - s.
Proof.
  intros H. unfold subarray. rewrite length_firstn, length_skipn. lia.
Qed.

Lemma length_subarray_le (s e : nat) (d : Buffer) :
  List.length (subarray s e d) <= e - s.
Proof.
  unfold subarray. rewrite length_firstn. lia.
Qed.

Lemma subarray_middle (s e : nat) (d : Buffer) :
  s <= e -> firstn s d ++ subarray s e d ++ skipn e d = d.
Proof.
  intros H. unfold subarray.
  replace (skipn e d) with (skipn (e - s) (skipn s d))
    by (rewrite skipn_skipn; f_equal; lia).
  rewrite (firstn_skipn (e - s) (skipn s d)). apply firstn_skipn.
Qed.

Lemma index_subarray (d : Buffer) (i : nat) :
  i < List.length d -> byteField (index d i) = subarray i (i + 1) d.
Proof.
  intros Hi. unfold index.
  destruct (nth_error d i) as [b|] eqn:Hb.
  - apply nth_error_split in Hb. destruct Hb as (l1 & l2 & -> & <-).
    unfold subarray.
    rewrite skipn_app, skipn_all, Nat.sub_diag.
    replace (List.length l1 + 1 - List.length l1) with 1 by lia.
    reflexivity.
  - apply nth_error_None in Hb. lia.
Qed.

(** *** Addresses *)

Lemma BN_byteLength_le (n : nat) (v : Z) :
  (0 <= v < 256 ^ Z.of_nat n)%Z -> (BN.byteLength v <= Z.of_nat n)%Z.
Proof.
  intros [H0 H1]. unfold BN.byteLength, BN.bitLength.
  destruct (Z.eqb_spec v 0) as [->|Hne].
  - cbn. lia.
  - rewrite Z.abs_eq by lia.
    assert (Hlog : (Z.log2 v < 8 * Z.of_nat n)%Z).
    { apply Z.log2_lt_pow2; [lia|].
      rewrite Z.pow_mul_r by lia. exact H1. }
    apply Z.lt_succ_r. apply Z.div_lt_upper_bound; lia.
Qed.

Lemma newPublicKey_ok (bs : Buffer) :
  List.length bs <= 32 -> newPublicKey bs = Ok (mkPublicKey (be_decode bs)).
Proof.
  intros Hlen. unfold newPublicKey, BN.ofBufferBE, PUBLIC_KEY_LENGTH.
  pose proof (le_decode_range (rev bs)) as Hr. rewrite length_rev in Hr.
  fold (be_decode bs) in Hr.
  assert (Hb : (BN.byteLength (be_decode bs) <= 32)%Z).
  { apply (BN_byteLength_le 32). split; [lia|].
    eapply Z.lt_le_trans; [apply Hr|].
    apply Z.pow_le_mono_r; lia. }
  destruct (Z.gtb_spec (BN.byteLength (be_decode bs)) 32); [lia|reflexivity].
Qed.

Lemma keyAt_ok (d : Buffer) (offset : nat) :
  keyAt d offset =
  Ok (mkPublicKey (be_decode (subarray offset (offset + 32) d))).
Proof.
  unfold keyAt. apply newPublicKey_ok.
  pose proof (length_subarray_le offset (offset + 32) d). lia.
Qed.

Lemma toBytes_be_decode (bs : Buffer) :
  List.length bs = 32 -> toBytes (mkPublicKey (be_decode bs)) = bs.
Proof.
  intros Hlen. unfold toBytes, be_encode, be_decode. cbn [pk_bn].
  rewrite <- Hlen, <- (length_rev bs), le_encode_le_decode.
  apply rev_involutive.
Qed.

(** *** The decoder never throws *)

Lemma parsePoolState_eq (addr : PublicKey) (d : Buffer) :
  parsePoolState addr d =
  Ok {| address := addr;
        ammConfig := mkPublicKey (be_decode (subarray 8 40 d));
        poolCreator := mkPublicKey (be_decode (subarray 40 72 d));
        token0Vault := mkPublicKey (be_decode (subarray 72 104 d));
        token1Vault := mkPublicKey (be_decode (subarray 104 136 d));
        lpMint := mkPublicKey (be_decode (subarray 136 168 d));
        token0Mint := mkPublicKey (be_decode (subarray 168 200 d));
        token1Mint := mkPublicKey (be_decode (subarray 200 232 d));
        token0Program := mkPublicKey (be_decode (subarray 232 264 d));
        token1Program := mkPublicKey (be_decode (subarray 264 296 d));
        observationKey := mkPublicKey (be_decode (subarray 296 328 d));
        authBump := nth_error d 328;
        status := nth_error d 329;
        lpMintDecimals := nth_error d 330;
        mint0Decimals := nth_error d 331;
        mint1Decimals := nth_error d 332;
        lpSupply := le_decode (subarray 333 341 d);
        protocolFeesToken0 := le_decode (subarray 341 349 d);
        protocolFeesToken1 := le_decode (subarray 349 357 d);
        fundFeesToken0 := le_decode (subarray 357 365 d);
        fundFeesToken1 := le_decode (subarray 365 373 d);
        openTime := le_decode (subarray 373 381 d) |}.
Proof.
  unfold parsePoolState. rewrite !keyAt_ok. reflexivity.
Qed.

Lemma le_encode_subarray (d : Buffer) (a b : nat) :
  b = a + 8 -> b <= List.length d ->
  le_encode 8 (le_decode (subarray a b d)) = subarray a b d.
Proof.
  intros -> Hb.
  pose proof (le_encode_le_decode (subarray a (a + 8) d)) as H.
  rewrite length_subarray in H by lia.
  replace (a + 8 - a) with 8 in H by lia. exact H.
Qed.

(** *** Writing fields back *)

Lemma length_write_at (offset : nat) (bs : list byte) (buf : Buffer) :
  offset + List.length bs <= List.length buf ->
  List.length (write_at offset bs buf) = List.length buf.
Proof.
  intros H. unfold write_at.
  rewrite !length_app, length_firstn, length_skipn. lia.
Qed.

Lemma writeFields_contiguous (fields : list (nat * list byte)) :
  forall (offset : nat) (buf : Buffer),
    contiguous offset fields ->
    offset + List.length (List.concat (map snd fields)) <= List.length buf ->
    writeFields fields buf =
    firstn offset buf ++ List.concat (map snd fields)
    ++ skipn (offset + List.length (List.concat (map snd fields))) buf.
Proof.
  induction fields as [|[o bs] rest IH]; intros offset buf Hc Hlen.
  - cbn. rewrite Nat.add_0_r. symmetry. apply firstn_skipn.
  - cbn [contiguous fst snd] in Hc. destruct Hc as [-> Hc].
    cbn [map snd List.concat] in *. rewrite length_app in Hlen.
    unfold writeFields. cbn [fold_left fst snd].
    fold (writeFields rest (write_at offset bs buf)).
    rewrite (IH (offset + List.length bs))
      by (try assumption; rewrite length_write_at; lia).
    unfold write_at.
    assert (Hf : List.length (firstn offset buf) = offset)
      by (rewrite length_firstn; lia).
    rewrite firstn_app, Hf.
    rewrite (@firstn_all2 _ (offset + List.length bs) (firstn offset buf))
      by lia.
    replace (offset + List.length bs - offset) with (List.length bs + 0) by lia.
    rewrite firstn_app_2. cbn [firstn]. rewrite app_nil_r.
    rewrite skipn_app, Hf.
    rewrite (@skipn_all2 _ (offset + List.length bs + _) (firstn offset buf))
      by lia.
    rewrite skipn_app.
    rewrite (@skipn_all2 _ (offset + List.length bs + _ - offset) bs)
      by (clear; lia).
    rewrite skipn_skipn, length_app. cbn [app].
    rewrite <- !app_assoc. do 3 f_equal.
    apply (f_equal (fun k => skipn k buf)). lia.
Qed.

Lemma encodedFields_parse (addr : PublicKey) (d : Buffer) (p : PoolState) :
  LAYOUT_END <= List.length d ->
  parsePoolState addr d = Ok p ->
  encodedFields p = layoutSlices d.
Proof.
  intros Hlen. rewrite parsePoolState_eq. intros E. apply Ok_inj in E. subst p.
  unfold LAYOUT_END, POOL_STATE_LAYOUT.OPEN_TIME in Hlen.
  unfold encodedFields, layoutSlices, fieldSpans.
  cbn [map fst snd address ammConfig poolCreator token0Vault token1Vault lpMint
       token0Mint token1Mint token0Program token1Program observationKey
       authBump status lpMintDecimals mint0Decimals mint1Decimals lpSupply
       protocolFeesToken0 protocolFeesToken1 fundFeesToken0 fundFeesToken1
       openTime].
  unfold POOL_STATE_LAYOUT.AMM_CONFIG, POOL_STATE_LAYOUT.POOL_CREATOR,
    POOL_STATE_LAYOUT.TOKEN_0_VAULT, POOL_STATE_LAYOUT.TOKEN_1_VAULT,
    POOL_STATE_LAYOUT.LP_MINT, POOL_STATE_LAYOUT.TOKEN_0_MINT,
    POOL_STATE_LAYOUT.TOKEN_1_MINT, POOL_STATE_LAYOUT.TOKEN_0_PROGRAM,
    POOL_STATE_LAYOUT.TOKEN_1_PROGRAM, POOL_STATE_LAYOUT.OBSERVATION_KEY,
    POOL_STATE_LAYOUT.AUTH_BUMP, POOL_STATE_LAYOUT.STATUS,
    POOL_STATE_LAYOUT.LP_MINT_DECIMALS, POOL_STATE_LAYOUT.MINT_0_DECIMALS,
    POOL_STATE_LAYOUT.MINT_1_DECIMALS, POOL_STATE_LAYOUT.LP_SUPPLY,
    POOL_STATE_LAYOUT.PROTOCOL_FEES_TOKEN_0,
    POOL_STATE_LAYOUT.PROTOCOL_FEES_TOKEN_1,
    POOL_STATE_LAYOUT.FUND_FEES_TOKEN_0, POOL_STATE_LAYOUT.FUND_FEES_TOKEN_1,
    POOL_STATE_LAYOUT.OPEN_TIME.
  repeat match goal with
         | |- context [toBytes (mkPublicKey (be_decode (subarray ?a ?b d)))] =>
             rewrite (toBytes_be_decode (subarray a b d))
               by (rewrite length_subarray; lia)
         end.
  repeat match goal with
         | |- context [byteField (nth_error d ?i)] =>
             change (nth_error d i) with (index d i);
             rewrite (index_subarray d i) by lia
         end.
  repeat match goal with
         | |- context [le_encode 8 (le_decode (subarray ?a ?b d))] =>
             rewrite (le_encode_subarray d a b) by lia
         end.
  reflexivity.
Qed.

Lemma layoutSlices_contiguous (d : Buffer) :
  LAYOUT_END <= List.length d -> contiguous LAYOUT_START (layoutSlices d).
Proof.
  intros Hlen. unfold LAYOUT_END, POOL_STATE_LAYOUT.OPEN_TIME in Hlen.
  unfold layoutSlices, fieldSpans, LAYOUT_START.
  cbn [map fst snd contiguous].
  repeat (rewrite length_subarray by (cbv - [Nat.le List.length]; lia)).
  repeat split; reflexivity.
Qed.

Lemma layoutSlices_concat (d : Buffer) :
  List.concat (map snd (layoutSlices d)) = subarray LAYOUT_START LAYOUT_END d.
Proof.
  unfold layoutSlices, fieldSpans, LAYOUT_START, LAYOUT_END.
  cbn [map fst snd List.concat]. rewrite app_nil_r.
  repeat (rewrite subarray_app by (cbv; lia)). reflexivity.
Qed.

Lemma encodePoolStateInto_parse (addr : PublicKey) (d base : Buffer)
      (p : PoolState) :
  LAYOUT_END <= List.length d -> LAYOUT_END <= List.length base ->
  parsePoolState addr d = Ok p ->
  encodePoolStateInto base p =
  firstn LAYOUT_START base ++ subarray LAYOUT_START LAYOUT_END d
  ++ skipn LAYOUT_END base.
Proof.
  intros Hd Hb Hp. unfold encodePoolStateInto.
  rewrite (encodedFields_parse addr d p Hd Hp).
  assert (Hl : List.length (subarray LAYOUT_START LAYOUT_END d)
               = LAYOUT_END - LAYOUT_START).
  { apply length_subarray. split; [|exact Hd]. cbv. lia. }
  rewrite (writeFields_contiguous (layoutSlices d) LAYOUT_START base).
  - rewrite layoutSlices_concat, Hl. reflexivity.
  - apply layoutSlices_contiguous. exact Hd.
  - rewrite layoutSlices_concat, Hl.
    replace (LAYOUT_START + (LAYOUT_END - LAYOUT_START)) with LAYOUT_END
      by (cbv; lia).
    exact Hb.
Qed.

End Codec.

(** C6.  The decoder does not check the length of the buffer and never
    fails: for every address and every byte buffer, also one shorter
    than the fixed layout, it returns a PoolState.  Each address is read
    from the (possibly truncated or empty) slice at its offset, each
    one-byte field is the byte at its offset or undefined past the end,
    and each counter is the little-endian value of the bytes that are
    there. *)
Theorem parsePoolState_never_fails (addr : PublicKey) (rawBytes : Buffer) :
  parsePoolState addr rawBytes =
  Ok {| address := addr;
        ammConfig := mkPublicKey (be_decode (subarray 8 40 rawBytes));
        poolCreator := mkPublicKey (be_decode (subarray 40 72 rawBytes));
        token0Vault := mkPublicKey (be_decode (subarray 72 104 rawBytes));
        token1Vault := mkPublicKey (be_decode (subarray 104 136 rawBytes));
        lpMint := mkPublicKey (be_decode (subarray 136 168 rawBytes));
        token0Mint := mkPublicKey (be_decode (subarray 168 200 rawBytes));
        token1Mint := mkPublicKey (be_decode (subarray 200 232 rawBytes));
        token0Program := mkPublicKey (be_decode (subarray 232 264 rawBytes));
        token1Program := mkPublicKey (be_decode (subarray 264 296 rawBytes));
        observationKey := mkPublicKey (be_decode (subarray 296 328 rawBytes));
        authBump := index rawBytes 328;
        status := index rawBytes 329;
        lpMintDecimals := index rawBytes 330;
        mint0Decimals := index rawBytes 331;
        mint1Decimals := index rawBytes 332;
        lpSupply := le_decode (subarray 333 341 rawBytes);
        protocolFeesToken0 := le_decode (subarray 341 349 rawBytes);
        protocolFeesToken1 := le_decode (subarray 349 357 rawBytes);
        fundFeesToken0 := le_decode (subarray 357 365 rawBytes);
        fundFeesToken1 := le_decode (subarray 365 373 rawBytes);
        openTime := le_decode (subarray 373 381 rawBytes) |}.
Proof. apply parsePoolState_eq. Qed.

(** C6, as stated, fails: the empty buffer, and the first 100 bytes of a
    pool record, are shorter than the layout and still decode to a
    PoolState. *)
Lemma parsePoolState_accepts_short_buffers :
  parsePoolState Sample.poolAddress [] =
    Ok {| address := Sample.poolAddress;
          ammConfig := mkPublicKey 0; poolCreator := mkPublicKey 0;
          token0Vault := mkPublicKey 0; token1Vault := mkPublicKey 0;
          lpMint := mkPublicKey 0;
          token0Mint := mkPublicKey 0; token1Mint := mkPublicKey 0;
          token0Program := mkPublicKey 0; token1Program := mkPublicKey 0;
          observationKey := mkPublicKey 0;
          authBump := None; status := None; lpMintDecimals := None;
          mint0Decimals := None; mint1Decimals := None;
          lpSupply := 0; protocolFeesToken0 := 0; protocolFeesToken1 := 0;
          fundFeesToken0 := 0; fundFeesToken1 := 0; openTime := 0 |} /\
  isOk (parsePoolState Sample.poolAddress (firstn 100 Sample.poolData)) = true /\
  ~ (forall (addr : PublicKey) (rawBytes : Buffer),
       (List.length rawBytes < POOL_RECORD_SIZE)%nat ->
       exists e, parsePoolState addr rawBytes = Throw e).
Proof.
  split; [vm_compute; reflexivity|]. split; [vm_compute; reflexivity|].
  intros H. destruct (H Sample.poolAddress []) as [e He].
  - cbv. lia.
  - vm_compute in He. discriminate He.
Qed.

(** C7.  For every 637-byte pool record, decoding it and re-encoding the
    decoded fields at their offsets reproduces bytes 8..380, the span
    the layout covers: written over the record itself the fields leave
    it unchanged, and written into a fresh record they reproduce the
    original on that span. *)
Theorem decode_encode_roundtrip_on_layout (addr : PublicKey) (record : Buffer) :
  List.length record = POOL_RECORD_SIZE ->
  exists p,
    parsePoolState addr record = Ok p /\
    encodePoolStateInto record p = record /\
    subarray LAYOUT_START LAYOUT_END (encodePoolState p)
      = subarray LAYOUT_START LAYOUT_END record /\
    List.length (encodePoolState p) = POOL_RECORD_SIZE.
Proof.
  intros Hlen.
  assert (Hd : (LAYOUT_END <= List.length record)%nat)
    by (rewrite Hlen; cbv; lia).
  assert (Hb : (LAYOUT_END <= List.length (repeat x00 POOL_RECORD_SIZE))%nat)
    by (rewrite repeat_length; cbv; lia).
  eexists. split; [apply parsePoolState_eq|].
  pose proof (parsePoolState_eq addr record) as Hp.
  assert (Hl : List.length (subarray LAYOUT_START LAYOUT_END record) = 373%nat).
  { rewrite length_subarray; [reflexivity|]. split; [cbv; lia|exact Hd]. }
  split; [|split].
  - rewrite (encodePoolStateInto_parse addr record record _ Hd Hd Hp).
    apply subarray_middle. cbv. lia.
  - unfold encodePoolState.
    rewrite (encodePoolStateInto_parse addr record _ _ Hd Hb Hp).
    set (X := subarray LAYOUT_START LAYOUT_END record) in *.
    unfold subarray at 1.
    change (firstn LAYOUT_START (repeat x00 POOL_RECORD_SIZE))
      with (repeat x00 8).
    change (skipn LAYOUT_START (repeat x00 8 ++ X ++
                                skipn LAYOUT_END (repeat x00 POOL_RECORD_SIZE)))
      with (X ++ skipn LAYOUT_END (repeat x00 POOL_RECORD_SIZE)).
    change (LAYOUT_END - LAYOUT_START)%nat with (373 + 0)%nat.
    rewrite <- Hl, firstn_app_2. cbn [firstn]. apply app_nil_r.
  - unfold encodePoolState.
    rewrite (encodePoolStateInto_parse addr record _ _ Hd Hb Hp).
    rewrite !length_app, Hl, length_firstn, length_skipn, repeat_length.
    reflexivity.
Qed.

Lemma decode_encode_roundtrip_witness :
  exists p,
    parsePoolState Sample.poolAddress Sample.poolData = Ok p /\
    encodePoolStateInto Sample.poolData p = Sample.poolData /\
    subarray LAYOUT_START LAYOUT_END (encodePoolState p)
      = subarray LAYOUT_START LAYOUT_END Sample.poolData /\
    List.length (encodePoolState p) = POOL_RECORD_SIZE.
Proof.
  apply (decode_encode_roundtrip_on_layout Sample.poolAddress Sample.poolData).
  vm_compute. reflexivity.
Defined.

(** C7, as stated, fails: the decoded fields do not determine the whole
    record.  Re-encoding the fields of the sample record does not give
    the record back, and no encoder of the decoded fields can, since two
    records that differ only in their first eight bytes decode to the
    same PoolState. *)
Lemma decode_encode_roundtrip_not_whole_record :
  List.length Sample.poolData = POOL_RECORD_SIZE /\
  (exists p,
     parsePoolState Sample.poolAddress Sample.poolData = Ok p /\
     encodePoolState p <> Sample.poolData) /\
  ~ (exists encode : PoolState -> Buffer,
       forall record p,
         List.length record = POOL_RECORD_SIZE ->
         parsePoolState Sample.poolAddress record = Ok p ->
         encode p = record).
Proof.
  split; [vm_compute; reflexivity|]. split.
  - eexists. split; [vm_compute; reflexivity|].
    intros H. apply (f_equal (fun l => nth_error l 0)) in H.
    vm_compute in H. discriminate H.
  - intros [encode H].
    pose (other := repeat x00 8 ++ skipn 8 Sample.poolData).
    assert (H1 := H Sample.poolData Sample.pool).
    assert (H2 := H other Sample.pool).
    assert (E : Sample.poolData = other).
    { rewrite <- H1, <- H2; try reflexivity; vm_compute; reflexivity. }
    apply (f_equal (fun l => nth_error l 0)) in E.
    vm_compute in E. discriminate E.
Qed.

(** ** Pool lookup by address *)

Section Lookup.

Variable connection : Connection.

Lemma getPoolStateByAddress_eq (addr : PublicKey) (w : World) :
  getPoolStateByAddress connection addr w =
  (Ok match getAccountInfo connection (List.length (rpc_log w)) addr with
      | Ok (Some info) =>
          if ownedByCpmm info
          then match parsePoolState addr (account_data info) with
               | Ok p => Some p
               | Throw _ => None
               end
          else None
      | _ => None
      end,
   afterRead addr w).
Proof.
  unfold getPoolStateByAddress, try_catch, bind, request, ret, lift,
    ownedByCpmm, afterRead.
  destruct (getAccountInfo connection (List.length (rpc_log w)) addr)
    as [[info|]|e]; try reflexivity.
  destruct (String.eqb _ _); cbn [negb]; [|reflexivity].
  destruct (parsePoolState addr (account_data info)); reflexivity.
Qed.

End Lookup.

(** C8.  The direct lookup performs exactly one account read and never
    raises an error.  It returns null when no account exists at the
    address, the same null when the account is owned by another program,
    and also null when the read fails; it returns the decoded PoolState
    when, and only when, the account exists and is owned by the swap
    program. *)
Theorem getPoolStateByAddress_outcomes
  (connection : Connection) (addr : PublicKey) (w : World) :
  let answer := getAccountInfo connection (List.length (rpc_log w)) addr in
  let w' := {| rpc_log := rpc_log w ++ [GetAccountInfo addr];
               keypairs_drawn := keypairs_drawn w |} in
  (exists r, getPoolStateByAddress connection addr w = (Ok r, w')) /\
  (answer = Ok None ->
   getPoolStateByAddress connection addr w = (Ok None, w')) /\
  (forall info,
     answer = Ok (Some info) ->
     toBase58 (account_owner info) <> toBase58 RAYDIUM_CPMM_PROGRAM_ID ->
     getPoolStateByAddress connection addr w = (Ok None, w')) /\
  (forall e,
     answer = Throw e ->
     getPoolStateByAddress connection addr w = (Ok None, w')) /\
  (forall info,
     answer = Ok (Some info) ->
     toBase58 (account_owner info) = toBase58 RAYDIUM_CPMM_PROGRAM_ID ->
     exists p,
       parsePoolState addr (account_data info) = Ok p /\
       getPoolStateByAddress connection addr w = (Ok (Some p), w')) /\
  (forall p w1,
     getPoolStateByAddress connection addr w = (Ok (Some p), w1) ->
     exists info,
       answer = Ok (Some info) /\
       toBase58 (account_owner info) = toBase58 RAYDIUM_CPMM_PROGRAM_ID /\
       parsePoolState addr (account_data info) = Ok p).
Proof.
  cbv zeta. rewrite getPoolStateByAddress_eq. fold (afterRead addr w).
  unfold ownedByCpmm.
  split; [eexists; reflexivity|].
  split; [intros ->; reflexivity|].
  split.
  { intros info -> Hne. apply String.eqb_neq in Hne. rewrite Hne. reflexivity. }
  split; [intros e ->; reflexivity|].
  split.
  { intros info -> Heq. apply String.eqb_eq in Heq. rewrite Heq.
    rewrite parsePoolState_eq. eexists. split; reflexivity. }
  intros p w1 H.
  destruct (getAccountInfo connection (List.length (rpc_log w)) addr)
    as [[info|]|e]; try discriminate H.
  destruct (String.eqb _ _) eqn:Heq; [|discriminate H].
  apply String.eqb_eq in Heq.
  destruct (parsePoolState addr (account_data info)) as [p'|] eqn:Hp;
    [|discriminate H].
  exists info. repeat split; try assumption. congruence.
Qed.

Lemma getPoolStateByAddress_outcomes_witness :
  exists p,
    parsePoolState Sample.poolAddress Sample.poolData = Ok p /\
    getPoolStateByAddress Sample.connection Sample.poolAddress Sample.world0
      = (Ok (Some p),
         {| rpc_log := [GetAccountInfo Sample.poolAddress];
            keypairs_drawn := 0 |}).
Proof.
  apply (getPoolStateByAddress_outcomes Sample.connection Sample.poolAddress
           Sample.world0
         : _ /\ _ /\ _ /\ _ /\
           (forall info, _ -> _ ->
              exists p, parsePoolState Sample.poolAddress (account_data info) = Ok p /\ _)
           /\ _)
    with (info := {| account_owner := RAYDIUM_CPMM_PROGRAM_ID;
                     account_data := Sample.poolData |});
    reflexivity.
Defined.

(** C8, as stated, fails: a missing account and an account owned by
    another program give the same result, null, not two distinct
    errors. *)
Lemma getPoolStateByAddress_no_distinct_errors :
  getPoolStateByAddress Sample.emptyLedger Sample.poolAddress Sample.world0
    = (Ok None,
       {| rpc_log := [GetAccountInfo Sample.poolAddress]; keypairs_drawn := 0 |}) /\
  getPoolStateByAddress (Sample.ledger Sample.otherProgram) Sample.poolAddress
    Sample.world0
    = (Ok None,
       {| rpc_log := [GetAccountInfo Sample.poolAddress]; keypairs_drawn := 0 |}) /\
  getAccountInfo Sample.emptyLedger 0 Sample.poolAddress = Ok None /\
  getAccountInfo (Sample.ledger Sample.otherProgram) 0 Sample.poolAddress
    = Ok (Some {| account_owner := Sample.otherProgram;
                  account_data := Sample.poolData |}).
Proof. repeat split; vm_compute; reflexivity. Qed.

(** ** Swap direction *)

Lemma calculateSwapOutput_le_reserve aIn inputReserve outputReserve feeBps :
  0 <= aIn -> 0 < inputReserve -> 0 <= outputReserve -> 0 <= feeBps < 10000 ->
  exists out pi,
    calculateSwapOutput aIn inputReserve outputReserve feeBps = Ok (out, pi) /\
    0 <= out <= outputReserve.
Proof.
  intros Ha Hi Ho Hf.
  destruct (calculateSwapOutput_ok aIn inputReserve outputReserve feeBps
              Ha Hi Ho Hf) as (pi & H).
  cbv zeta in H.
  set (a' := aIn * (10000 - feeBps) / 10000) in *.
  assert (Ha' : 0 <= a') by (apply Z.div_pos; nia).
  eexists _, pi. split; [exact H|]. split.
  - apply Z.div_pos; nia.
  - apply Z.div_le_upper_bound; nia.
Qed.

(** C9.  Neither the quote nor the swap instruction checks that
    inputMint belongs to the pool.  For every pool and every inputMint
    other than the pool's first mint, also one that is neither of its
    mints, the direction is second-to-first: the quote is computed with
    the second vault's balance as input reserve and the first vault's as
    output reserve, and the instruction names the second vault as input
    vault and the first as output vault.  With unsigned 64-bit amounts
    and a funded second vault both are produced without error. *)
Theorem foreign_inputMint_resolves_second_to_first
  (pool : PoolState) (balances : VaultBalances)
  (payer inAcc outAcc inMint outMint inProg outProg : PublicKey) (aIn slip : Z) :
  inMint <> token0Mint pool ->
  swapReserves pool balances inMint
    = (vault1Balance balances, vault0Balance balances) /\
  swapVaults pool inMint = (token1Vault pool, token0Vault pool) /\
  (forall q,
     quoteFromBalances pool balances inMint outMint aIn slip = Ok q ->
     exists pi,
       calculateSwapOutput aIn (vault1Balance balances) (vault0Balance balances)
         100 = Ok (amountOut q, pi) /\
       minimumAmountOutOf (amountOut q) (vault1Balance balances) slip
         = Ok (minimumAmountOut q)) /\
  (forall m ix,
     buildSwapInstruction pool payer inAcc outAcc inMint outMint inProg outProg
       aIn m = Ok ix ->
     map pubkey (firstn 2 (skipn 6 (keys ix)))
       = [token1Vault pool; token0Vault pool]) /\
  (0 <= aIn < 2 ^ 64 -> 0 < vault1Balance balances ->
   0 <= vault0Balance balances < 2 ^ 64 -> 0 <= slip < 10000 ->
   exists q ix,
     quoteFromBalances pool balances inMint outMint aIn slip = Ok q /\
     buildSwapInstruction pool payer inAcc outAcc inMint outMint inProg outProg
       (amountIn q) (minimumAmountOut q) = Ok ix).
Proof.
  intros Hne. apply equals_false in Hne.
  assert (Hres : swapReserves pool balances inMint
                 = (vault1Balance balances, vault0Balance balances))
    by (unfold swapReserves; rewrite Hne; reflexivity).
  assert (Hv : swapVaults pool inMint = (token1Vault pool, token0Vault pool))
    by (unfold swapVaults; rewrite Hne; reflexivity).
  split; [exact Hres|]. split; [exact Hv|]. split; [|split].
  - intros q Hq. apply quoteFromBalances_inv in Hq.
    rewrite Hres in Hq. cbn [fst snd] in Hq.
    destruct Hq as (pi & Hout & Hm & _). exists pi. split; assumption.
  - intros m ix. unfold buildSwapInstruction. rewrite Hv.
    destruct (writeBigUInt64LE aIn); cbn [rbind]; [|discriminate].
    destruct (writeBigUInt64LE m); cbn [rbind]; [|discriminate].
    intros E. apply Ok_inj in E. subst ix. reflexivity.
  - intros Ha H1 H0 Hs.
    destruct (calculateSwapOutput_le_reserve aIn (vault1Balance balances)
                (vault0Balance balances) 100 ltac:(lia) H1 ltac:(lia) ltac:(lia))
      as (out & pi & Hout & Hrange).
    pose proof (minimumAmountOutOf_eq out (vault1Balance balances) slip Hs) as Hm.
    pose proof (minimumAmountOutOf_le out (vault1Balance balances) slip _
                  ltac:(lia) Hs Hm) as Hmr.
    unfold quoteFromBalances. rewrite Hres, Hout. cbn [rbind]. rewrite Hm.
    cbn [rbind]. eexists _, _. split; [reflexivity|].
    unfold buildSwapInstruction. rewrite Hv. cbn [amountIn minimumAmountOut].
    rewrite (writeBigUInt64LE_ok aIn Ha).
    rewrite writeBigUInt64LE_ok by lia.
    cbn [rbind]. reflexivity.
Qed.

Lemma foreign_inputMint_witness :
  exists q ix,
    quoteFromBalances Sample.pool Sample.balances Sample.foreignMint
      Sample.tokenMint 10000 100 = Ok q /\
    buildSwapInstruction Sample.pool Sample.wallet (mkPublicKey 2311)
      (mkPublicKey 3009) Sample.foreignMint Sample.tokenMint TOKEN_PROGRAM_ID
      TOKEN_PROGRAM_ID (amountIn q) (minimumAmountOut q) = Ok ix.
Proof.
  apply (foreign_inputMint_resolves_second_to_first Sample.pool Sample.balances
           Sample.wallet (mkPublicKey 2311) (mkPublicKey 3009)
           Sample.foreignMint Sample.tokenMint TOKEN_PROGRAM_ID
           TOKEN_PROGRAM_ID 10000 100).
  - discriminate.
  - lia.
  - cbn. lia.
  - cbn. lia.
  - lia.
Defined.

(** ** The async monad *)

Section Async.

Context {A B : Type}.

Lemma bind_Ok_inv (m : M A) (f : A -> M B) (w w' : World) (b : B) :
  bind m f w = (Ok b, w') ->
  exists a w1, m w = (Ok a, w1) /\ f a w1 = (Ok b, w').
Proof.
  unfold bind. destruct (m w) as [[a|e] w1]; [|discriminate].
  intros H. exists a, w1. split; [reflexivity|exact H].
Qed.

Lemma lift_Ok_inv (r : Result A) (w w' : World) (a : A) :
  lift r w = (Ok a, w') -> r = Ok a /\ w' = w.
Proof. unfold lift. intros [= -> ->]. split; reflexivity. Qed.

Lemma ret_Ok_inv (a a' : A) (w w' : World) :
  ret a w = (Ok a', w') -> a' = a /\ w' = w.
Proof. unfold ret. intros [= -> ->]. split; reflexivity. Qed.

Lemma alwaysThrows_bind (m : M A) (f : A -> M B) :
  (forall a, alwaysThrows (f a)) -> alwaysThrows (bind m f).
Proof.
  intros Hf w. unfold bind. destruct (m w) as [[a|e] w1].
  - apply Hf.
  - exists e, w1. reflexivity.
Qed.

Lemma alwaysThrows_bind_l (m : M A) (f : A -> M B) :
  alwaysThrows m -> alwaysThrows (bind m f).
Proof.
  intros Hm w. unfold bind. destruct (Hm w) as (e & w1 & ->).
  exists e, w1. reflexivity.
Qed.

Lemma alwaysThrows_throw (e : Error) : alwaysThrows (@throw A e).
Proof. intros w. exists e, w. reflexivity. Qed.

Lemma alwaysThrows_lift (e : Error) : alwaysThrows (@lift A (Throw e)).
Proof. intros w. exists e, w. reflexivity. Qed.

End Async.

(** Peel the next [await] off a successful run. *)
Ltac await_inv H x w Hx :=
  apply bind_Ok_inv in H; destruct H as (x & w & Hx & H).

(** ** Temporary wrapped-SOL accounts *)

Lemma BN_toNumber_large (a : Z) :
  2 ^ 53 <= a ->
  BN.toNumber a =
  Throw (AssertionFailed "Number can only safely store up to 53 bits").
Proof.
  intros Ha. unfold BN.toNumber, BN.bitLength.
  destruct (Z.eqb_spec a 0) as [->|_]; [cbv in Ha; contradiction Ha; reflexivity|].
  rewrite Z.abs_eq by lia.
  assert (53 <= Z.log2 a) by (apply Z.log2_le_pow2; lia).
  destruct (Z.leb_spec (Z.log2 a + 1) 53); [lia|reflexivity].
Qed.

Lemma BN_toNumber_inv (a n : Z) : BN.toNumber a = Ok n -> n = a.
Proof.
  unfold BN.toNumber. destruct (_ <=? _); [|discriminate].
  intros E. apply Ok_inj in E. symmetry. exact E.
Qed.

Lemma createTempWsolAccount_inv pf payer amount w t w' :
  createTempWsolAccount pf payer amount w = (Ok t, w') ->
  exists seed,
    t = {| wsolAccount := createWithSeed pf payer seed TOKEN_PROGRAM_ID;
           tempSeed := seed;
           createInstruction :=
             CreateAccountWithSeed payer
               (createWithSeed pf payer seed TOKEN_PROGRAM_ID) payer seed
               (Number_add TOKEN_ACCOUNT_RENT amount) ACCOUNT_SIZE
               TOKEN_PROGRAM_ID;
           initInstruction :=
             InitializeAccount (createWithSeed pf payer seed TOKEN_PROGRAM_ID)
               NATIVE_MINT payer TOKEN_PROGRAM_ID |}.
Proof.
  unfold createTempWsolAccount. intros H.
  await_inv H k w1 Hk.
  await_inv H n w2 Hn.
  apply lift_Ok_inv in Hn. destruct Hn as [Hn _].
  apply BN_toNumber_inv in Hn. subst n.
  apply ret_Ok_inv in H. destruct H as [-> _].
  eexists. reflexivity.
Qed.

Lemma createTempWsolAccount_throws pf payer amount :
  2 ^ 53 <= amount -> alwaysThrows (createTempWsolAccount pf payer amount).
Proof.
  intros Ha. unfold createTempWsolAccount.
  apply alwaysThrows_bind. intros k.
  apply alwaysThrows_bind_l. rewrite (BN_toNumber_large amount Ha).
  apply alwaysThrows_lift.
Qed.

(** ** The assembled transaction *)

(** C10.  With the native asset as input the temporary account is funded
    with rent + amount computed on JavaScript numbers, after
    [amountIn.toNumber()].  For every amountIn >= 2^53 that conversion
    throws, so the swap-transaction builder throws and produces no
    transaction. *)
Theorem createSwapTransaction_throws_beyond_2_53
  (pf : Platform) (connection : Connection) (payer inMint outMint : PublicKey)
  (aIn slip : Z) (poolAddr : option PublicKey) (w : World) :
  equals inMint NATIVE_MINT = true ->
  2 ^ 53 <= aIn ->
  (exists w',
     createTempWsolAccount pf payer aIn w =
     (Throw (AssertionFailed "Number can only safely store up to 53 bits"), w')) /\
  (exists e w',
     createSwapTransaction pf connection payer inMint outMint aIn slip poolAddr w
     = (Throw e, w')).
Proof.
  intros Hnative Ha. split.
  - unfold createTempWsolAccount, bind, Keypair_generate, lift.
    rewrite (BN_toNumber_large aIn Ha). eexists. reflexivity.
  - revert w. change (alwaysThrows
      (createSwapTransaction pf connection payer inMint outMint aIn slip poolAddr)).
    unfold createSwapTransaction. rewrite Hnative.
    apply alwaysThrows_bind. intros [pool|]; [|apply alwaysThrows_throw].
    do 3 (apply alwaysThrows_bind; intros ?).
    apply alwaysThrows_bind_l. apply alwaysThrows_bind_l.
    apply createTempWsolAccount_throws. exact Ha.
Qed.

Lemma createSwapTransaction_throws_witness :
  exists e w',
    createSwapTransaction Sample.platform Sample.connection Sample.wallet
      NATIVE_MINT Sample.tokenMint (2 ^ 53) 100 (Some Sample.poolAddress)
      Sample.world0 = (Throw e, w').
Proof.
  apply (createSwapTransaction_throws_beyond_2_53 Sample.platform
           Sample.connection Sample.wallet NATIVE_MINT Sample.tokenMint
           (2 ^ 53) 100 (Some Sample.poolAddress) Sample.world0).
  - reflexivity.
  - lia.
Defined.

(** C5.  In every transaction the builder returns, the instructions are
    in the order: compute-budget limit, compute-budget price, create and
    initialise a temporary input account when the input is the native
    asset, create and initialise a temporary output account when the
    output is the native asset or else an idempotent create of the
    associated token account, the swap instruction, close of the
    temporary output account when created, close of the temporary input
    account when created.  So each native side contributes one
    create/initialise pair before the swap and one close after it, and
    with neither side native no instruction touches a temporary
    account. *)
Theorem createSwapTransaction_instruction_order
  (pf : Platform) (connection : Connection) (payer inMint outMint : PublicKey)
  (aIn slip : Z) (poolAddr : option PublicKey) (w w' : World)
  (res : SwapTransaction) :
  createSwapTransaction pf connection payer inMint outMint aIn slip poolAddr w
    = (Ok res, w') ->
  let nativeIn := equals inMint NATIVE_MINT in
  let nativeOut := equals outMint NATIVE_MINT in
  exists inAcc outAcc inProg outProg inSeed outSeed swapIx,
    buildSwapInstruction (poolState res) payer inAcc outAcc inMint outMint
      inProg outProg (amountIn (quote res)) (minimumAmountOut (quote res))
      = Ok swapIx /\
    let inputSetup :=
      if nativeIn
      then [ CreateAccountWithSeed payer inAcc payer inSeed
               (Number_add TOKEN_ACCOUNT_RENT aIn) ACCOUNT_SIZE TOKEN_PROGRAM_ID;
             InitializeAccount inAcc NATIVE_MINT payer TOKEN_PROGRAM_ID ]
      else [] in
    let outputSetup :=
      if nativeOut
      then [ CreateAccountWithSeed payer outAcc payer outSeed
               TOKEN_ACCOUNT_RENT ACCOUNT_SIZE TOKEN_PROGRAM_ID;
             InitializeAccount outAcc NATIVE_MINT payer TOKEN_PROGRAM_ID ]
      else [ CreateAssociatedTokenAccountIdempotent payer outAcc payer outMint
               outProg ] in
    let outputClose :=
      if nativeOut then [ CloseAccount outAcc payer payer TOKEN_PROGRAM_ID ]
      else [] in
    let inputClose :=
      if nativeIn then [ CloseAccount inAcc payer payer TOKEN_PROGRAM_ID ]
      else [] in
    instructions (transaction res) =
      [ SetComputeUnitLimit 300000; SetComputeUnitPrice 50000 ]
      ++ inputSetup ++ outputSetup ++ [ Swap swapIx ]
      ++ outputClose ++ inputClose /\
    splitAtSwap (instructions (transaction res)) =
      ([ SetComputeUnitLimit 300000; SetComputeUnitPrice 50000 ]
       ++ inputSetup ++ outputSetup,
       outputClose ++ inputClose) /\
    filter isEphemeral (fst (splitAtSwap (instructions (transaction res)))) =
      inputSetup ++ (if nativeOut then outputSetup else []) /\
    filter isEphemeral (snd (splitAtSwap (instructions (transaction res)))) =
      outputClose ++ inputClose.
Proof.
  intros H. cbv zeta. unfold createSwapTransaction in H.
  await_inv H found w1 Hfound.
  destruct found as [pool|]; [|discriminate H].
  await_inv H q w2 Hq.
  await_inv H inProg w3 HinProg.
  await_inv H outProg w4 HoutProg.
  await_inv H inputSide w5 Hin.
  destruct inputSide as [[inAcc tempIn] inSetup].
  await_inv H outputSide w6 Hout.
  destruct outputSide as [[outAcc tempOut] outSetup].
  await_inv H swapIx w7 Hswap.
  apply lift_Ok_inv in Hswap. destruct Hswap as [Hswap _].
  await_inv H blockhash w8 Hblock.
  apply ret_Ok_inv in H. destruct H as [-> _].
  cbn [transaction instructions quote poolState].
  assert (Hi : exists inSeed,
             (tempIn, inSetup) =
             if equals inMint NATIVE_MINT
             then (Some inAcc,
                   [ CreateAccountWithSeed payer inAcc payer inSeed
                       (Number_add TOKEN_ACCOUNT_RENT aIn) ACCOUNT_SIZE
                       TOKEN_PROGRAM_ID;
                     InitializeAccount inAcc NATIVE_MINT payer TOKEN_PROGRAM_ID ])
             else (None, [])).
  { destruct (equals inMint NATIVE_MINT).
    - await_inv Hin t wt Ht.
      apply createTempWsolAccount_inv in Ht. destruct Ht as (seed & ->).
      apply ret_Ok_inv in Hin. destruct Hin as [[= -> -> ->] _].
      exists seed. reflexivity.
    - await_inv Hin ata wt Hata.
      apply ret_Ok_inv in Hin. destruct Hin as [[= -> -> ->] _].
      exists EmptyString. reflexivity. }
  assert (Ho : exists outSeed,
             (tempOut, outSetup) =
             if equals outMint NATIVE_MINT
             then (Some outAcc,
                   [ CreateAccountWithSeed payer outAcc payer outSeed
                       TOKEN_ACCOUNT_RENT ACCOUNT_SIZE TOKEN_PROGRAM_ID;
                     InitializeAccount outAcc NATIVE_MINT payer TOKEN_PROGRAM_ID ])
             else (None,
                   [ CreateAssociatedTokenAccountIdempotent payer outAcc payer
                       outMint outProg ])).
  { destruct (equals outMint NATIVE_MINT).
    - await_inv Hout t wt Ht.
      apply createTempWsolAccount_inv in Ht. destruct Ht as (seed & ->).
      apply ret_Ok_inv in Hout. destruct Hout as [[= -> -> ->] _].
      exists seed. reflexivity.
    - await_inv Hout ata wt Hata.
      apply ret_Ok_inv in Hout. destruct Hout as [[= -> -> ->] _].
      exists EmptyString. reflexivity. }
  destruct Hi as (inSeed & Hi), Ho as (outSeed & Ho).
  exists inAcc, outAcc, inProg, outProg, inSeed, outSeed, swapIx.
  split.
  { destruct q. exact Hswap. }
  destruct (equals inMint NATIVE_MINT), (equals outMint NATIVE_MINT);
    injection Hi as -> ->; injection Ho as -> ->;
    repeat split; reflexivity.
Qed.

Lemma createSwapTransaction_instruction_order_witness :
  exists res w',
    createSwapTransaction Sample.platform Sample.connection Sample.wallet
      NATIVE_MINT Sample.tokenMint 10000 100 (Some Sample.poolAddress)
      Sample.world0 = (Ok res, w') /\
    map isEphemeral (instructions (transaction res))
      = [false; false; true; true; false; false; true].
Proof.
  assert (H : exists res w',
             createSwapTransaction Sample.platform Sample.connection
               Sample.wallet NATIVE_MINT Sample.tokenMint 10000 100
               (Some Sample.poolAddress) Sample.world0 = (Ok res, w'))
    by (eexists _, _; vm_compute; reflexivity).
  destruct H as (res & w' & H).
  exists res, w'. split; [exact H|].
  destruct (createSwapTransaction_instruction_order Sample.platform
              Sample.connection Sample.wallet NATIVE_MINT Sample.tokenMint
              10000 100 (Some Sample.poolAddress) Sample.world0 w' res H)
    as (inAcc & outAcc & inProg & outProg & inSeed & outSeed & swapIx
        & _ & Horder & _).
  rewrite Horder. reflexivity.
Defined.


(* ================================================================== *)
(** * Further properties of the quote *)

(** On unsigned amounts with a funded input vault, the computation
    returns the closed forms. *)
Lemma calculateSwapOutput_value aIn inputReserve outputReserve feeBps :
  0 <= aIn -> 0 < inputReserve -> 0 <= outputReserve -> 0 <= feeBps < 10000 ->
  calculateSwapOutput aIn inputReserve outputReserve feeBps =
  Ok (constantProductOut aIn inputReserve outputReserve feeBps,
      priceImpactOf aIn inputReserve outputReserve feeBps).
Proof.
  intros Ha Hi Ho Hf.
  pose proof (actualRatio_bound aIn inputReserve outputReserve
                (10000 - feeBps) Ha Hi Ho ltac:(lia)) as Hr.
  cbv zeta in Hr.
  unfold priceImpactOf, expectedOutputOf, constantProductOut, effectiveInOf.
  unfold calculateSwapOutput, amountInAfterFee, feeMultiplier, feeDivisor.
  rewrite BN_ofNumber_small by (change (2 ^ 53) with 9007199254740992; lia).
  cbn [rbind]. rewrite BN_div_pos by lia. cbn [rbind].
  rewrite (Z.quot_div_nonneg (aIn * _)) by nia.
  set (a' := aIn * (10000 - feeBps) / 10000) in *.
  assert (Ha' : 0 <= a') by (apply Z.div_pos; nia).
  rewrite BN_div_pos by lia. cbn [rbind].
  rewrite (Z.quot_div_nonneg (a' * _)) by nia.
  set (out := a' * outputReserve / (inputReserve + a')) in *.
  rewrite BN_div_pos by lia. cbn [rbind].
  rewrite (Z.quot_div_nonneg (outputReserve * _)) by nia.
  set (S := outputReserve * 1000000000 / inputReserve) in *.
  assert (HS : 0 <= S) by (apply Z.div_pos; nia).
  rewrite BN_div_pos by lia. cbn [rbind].
  rewrite (Z.quot_div_nonneg (aIn * _)) by nia.
  set (X := aIn * S / 1000000000) in *.
  assert (HX : 0 <= X) by (apply Z.div_pos; nia).
  rewrite BN_div_pos by lia. cbn [rbind].
  rewrite (Z.quot_div_nonneg (X * _)) by nia.
  set (E := X * (10000 - feeBps) / 10000) in *.
  assert (HE : 0 <= E) by (apply Z.div_pos; nia).
  assert (Hout : 0 <= out) by (apply Z.div_pos; nia).
  destruct (Z.eqb_spec E 0) as [HE0|HE0]; cbn [rbind]; [reflexivity|].
  specialize (Hr HE0).
  rewrite BN_div_pos by assumption. cbn [rbind].
  rewrite (Z.quot_div_nonneg (out * _)) by nia.
  rewrite BN_toNumber_small by (change (2 ^ 53) with 9007199254740992; lia).
  reflexivity.
Qed.

Lemma effectiveInOf_nonneg aIn feeBps :
  0 <= aIn -> 0 <= feeBps < 10000 -> 0 <= effectiveInOf aIn feeBps <= aIn.
Proof.
  intros Ha Hf. unfold effectiveInOf. split.
  - apply Z.div_pos; nia.
  - apply Z.div_le_upper_bound; nia.
Qed.

Lemma effectiveInOf_mono a1 a2 feeBps :
  a1 <= a2 -> 0 <= feeBps < 10000 ->
  effectiveInOf a1 feeBps <= effectiveInOf a2 feeBps.
Proof.
  intros H12 Hf. unfold effectiveInOf. apply Z.div_le_mono; nia.
Qed.

Lemma constantProductOut_bounds aIn inputReserve outputReserve feeBps :
  0 <= aIn -> 0 < inputReserve -> 0 <= outputReserve -> 0 <= feeBps < 10000 ->
  let e := effectiveInOf aIn feeBps in
  let out := constantProductOut aIn inputReserve outputReserve feeBps in
  0 <= out /\ (inputReserve + e) * out <= e * outputReserve.
Proof.
  intros Ha Hi Ho Hf. cbv zeta. unfold constantProductOut.
  pose proof (effectiveInOf_nonneg aIn feeBps Ha Hf) as He.
  set (e := effectiveInOf aIn feeBps) in *.
  split.
  - apply Z.div_pos; nia.
  - apply Z.mul_div_le. lia.
Qed.

(** X1.  The constant product never decreases: after the fee the new
    reserves multiply to at least the old product, and a swap never
    empties the output vault. *)
Theorem swap_keeps_constant_product
  (aIn inputReserve outputReserve feeBps out pi : Z) :
  0 <= aIn -> 0 < inputReserve -> 0 <= outputReserve -> 0 <= feeBps < 10000 ->
  calculateSwapOutput aIn inputReserve outputReserve feeBps = Ok (out, pi) ->
  exists effectiveIn,
    amountInAfterFee aIn feeBps = Ok effectiveIn /\
    0 <= effectiveIn <= aIn /\
    inputReserve * outputReserve
      <= (inputReserve + effectiveIn) * (outputReserve - out) /\
    0 <= out <= outputReserve /\
    (0 < outputReserve -> out < outputReserve).
Proof.
  intros Ha Hi Ho Hf H.
  rewrite calculateSwapOutput_value in H by assumption.
  apply Ok_inj in H. injection H as <- _.
  pose proof (effectiveInOf_nonneg aIn feeBps Ha Hf) as He.
  pose proof (constantProductOut_bounds aIn inputReserve outputReserve feeBps
                Ha Hi Ho Hf) as [Hout Hk].
  exists (effectiveInOf aIn feeBps). split.
  { unfold amountInAfterFee, feeMultiplier, feeDivisor.
    rewrite BN_ofNumber_small by (change (2 ^ 53) with 9007199254740992; lia).
    cbn [rbind]. rewrite BN_div_pos by lia.
    rewrite Z.quot_div_nonneg by nia. reflexivity. }
  set (e := effectiveInOf aIn feeBps) in *.
  set (o := constantProductOut aIn inputReserve outputReserve feeBps) in *.
  split; [exact He|]. split; [nia|].
  assert (Hlt : 0 < outputReserve -> o < outputReserve).
  { intros Hpos. subst o. unfold constantProductOut. fold e.
    apply Z.div_lt_upper_bound; nia. }
  split; [|exact Hlt].
  split; [exact Hout|].
  destruct (Z.eq_dec outputReserve 0) as [Hz|Hnz]; [nia|].
  specialize (Hlt ltac:(lia)). lia.
Qed.

Lemma swap_keeps_constant_product_witness :
  exists effectiveIn,
    amountInAfterFee 10000 100 = Ok effectiveIn /\
    0 <= effectiveIn <= 10000 /\
    1000000 * 2000000 <= (1000000 + effectiveIn) * (2000000 - 19605) /\
    0 <= 19605 <= 2000000 /\
    (0 < 2000000 -> 19605 < 2000000).
Proof.
  apply (swap_keeps_constant_product 10000 1000000 2000000 100 19605 99);
    try lia.
  reflexivity.
Defined.

(** X2.  A larger input never buys less: on the same reserves and fee the
    output is monotone in amountIn. *)
Theorem amountOut_monotone_in_amountIn
  (a1 a2 inputReserve outputReserve feeBps out1 out2 pi1 pi2 : Z) :
  0 <= a1 <= a2 -> 0 < inputReserve -> 0 <= outputReserve ->
  0 <= feeBps < 10000 ->
  calculateSwapOutput a1 inputReserve outputReserve feeBps = Ok (out1, pi1) ->
  calculateSwapOutput a2 inputReserve outputReserve feeBps = Ok (out2, pi2) ->
  out1 <= out2.
Proof.
  intros Ha Hi Ho Hf H1 H2.
  rewrite calculateSwapOutput_value in H1, H2 by (assumption || lia).
  apply Ok_inj in H1, H2. injection H1 as <- _. injection H2 as <- _.
  pose proof (effectiveInOf_nonneg a1 feeBps ltac:(lia) Hf) as He1.
  pose proof (effectiveInOf_mono a1 a2 feeBps ltac:(lia) Hf) as He12.
  pose proof (constantProductOut_bounds a1 inputReserve outputReserve feeBps
                ltac:(lia) Hi Ho Hf) as [Hout1 Hk1].
  assert (Hle : constantProductOut a1 inputReserve outputReserve feeBps
                <= outputReserve).
  { unfold constantProductOut. apply Z.div_le_upper_bound; nia. }
  set (o1 := constantProductOut a1 inputReserve outputReserve feeBps) in *.
  unfold constantProductOut at 1.
  set (e1 := effectiveInOf a1 feeBps) in *.
  set (e2 := effectiveInOf a2 feeBps) in *.
  apply Z.div_le_lower_bound; nia.
Qed.

Lemma amountOut_monotone_witness : 19605 <= 38831.
Proof.
  apply (amountOut_monotone_in_amountIn 10000 20000 1000000 2000000 100
           19605 38831 99 195); try lia; reflexivity.
Defined.

(** X3.  calculateSwapOutput throws whenever the input-side reserve is
    zero, whatever the amount, the other reserve and the fee: the spot
    price divides by the input reserve.  So no quote is produced on a
    pool whose input vault is empty. *)
Theorem empty_input_vault_throws
  (pool : PoolState) (balances : VaultBalances) (inMint outMint : PublicKey)
  (aIn outputReserve feeBps slip : Z) :
  (exists e, calculateSwapOutput aIn 0 outputReserve feeBps = Throw e) /\
  (fst (swapReserves pool balances inMint) = 0 ->
   exists e, quoteFromBalances pool balances inMint outMint aIn slip = Throw e).
Proof.
  assert (H : forall a r f, exists e, calculateSwapOutput a 0 r f = Throw e).
  { intros a r f. unfold calculateSwapOutput, amountInAfterFee, feeMultiplier.
    destruct (BN.ofNumber (10000 - f)) as [m|e]; cbn [rbind];
      [|eexists; reflexivity].
    destruct (BN.div (a * m) feeDivisor) as [a'|e]; cbn [rbind];
      [|eexists; reflexivity].
    destruct (BN.div (a' * r) (0 + a')) as [o|e]; cbn [rbind];
      [|eexists; reflexivity].
    eexists. reflexivity. }
  split; [apply H|].
  intros Hzero. unfold quoteFromBalances.
  destruct (swapReserves pool balances inMint) as [inR outR].
  cbn [fst] in Hzero. subst inR.
  destruct (H aIn outR 100) as [e ->]. eexists. reflexivity.
Qed.

Lemma empty_input_vault_throws_witness :
  exists e,
    quoteFromBalances Sample.pool
      {| vault0Balance := 0; vault1Balance := 2000000 |}
      NATIVE_MINT Sample.tokenMint 10000 100 = Throw e.
Proof.
  apply (empty_input_vault_throws Sample.pool
           {| vault0Balance := 0; vault1Balance := 2000000 |}
           NATIVE_MINT Sample.tokenMint 10000 0 100 100).
  reflexivity.
Defined.



(** X5.  The reported price impact lies between 0 and 100 percent (0 and
    10000 hundredths of a percent). *)
Theorem priceImpact_between_0_and_100_percent
  (aIn inputReserve outputReserve feeBps out pi : Z) :
  0 <= aIn -> 0 < inputReserve -> 0 <= outputReserve -> 0 <= feeBps < 10000 ->
  calculateSwapOutput aIn inputReserve outputReserve feeBps = Ok (out, pi) ->
  0 <= pi <= 10000.
Proof.
  intros Ha Hi Ho Hf H.
  rewrite calculateSwapOutput_value in H by assumption.
  apply Ok_inj in H. injection H as _ <-.
  unfold priceImpactOf.
  pose proof (constantProductOut_bounds aIn inputReserve outputReserve feeBps
                Ha Hi Ho Hf) as [Hout _].
  assert (HE : 0 <= expectedOutputOf aIn inputReserve outputReserve feeBps).
  { unfold expectedOutputOf.
    assert (0 <= outputReserve * 1000000000 / inputReserve)
      by (apply Z.div_pos; nia).
    assert (0 <= aIn * (outputReserve * 1000000000 / inputReserve) / 1000000000)
      by (apply Z.div_pos; nia).
    apply Z.div_pos; nia. }
  destruct (Z.eqb_spec (expectedOutputOf aIn inputReserve outputReserve feeBps) 0);
    [lia|].
  assert (0 <= constantProductOut aIn inputReserve outputReserve feeBps * 10000
               / expectedOutputOf aIn inputReserve outputReserve feeBps)
    by (apply Z.div_pos; nia).
  lia.
Qed.

Lemma priceImpact_range_witness : 0 <= 99 <= 10000.
Proof.
  apply (priceImpact_between_0_and_100_percent 10000 1000000 2000000 100
           19605 99); try lia; reflexivity.
Defined.

(** X6.  A requested slippage at or below the conservative floor (500
    bps, or 1500 bps on a low-liquidity pool) has no effect: any two such
    requests give the same minimum-amount-out, the one of the floor. *)
Theorem slippage_below_floor_is_ignored
  (amountOut inputReserve slip1 slip2 : Z) :
  slip1 <= conservativeSlippage inputReserve ->
  slip2 <= conservativeSlippage inputReserve ->
  minimumAmountOutOf amountOut inputReserve slip1
    = minimumAmountOutOf amountOut inputReserve slip2 /\
  minimumAmountOutOf amountOut inputReserve slip1
    = Ok (Z.quot (amountOut * (10000 - conservativeSlippage inputReserve)) 10000).
Proof.
  intros H1 H2.
  assert (E : forall s, s <= conservativeSlippage inputReserve ->
            minimumAmountOutOf amountOut inputReserve s =
            Ok (Z.quot (amountOut * (10000 - conservativeSlippage inputReserve))
                  10000)).
  { intros s Hs. unfold minimumAmountOutOf, effectiveSlippageBps.
    rewrite Z.max_r by exact Hs.
    assert (Hc : conservativeSlippage inputReserve = 1500 \/
                 conservativeSlippage inputReserve = 500)
      by (unfold conservativeSlippage; destruct (isLowLiquidity _); auto).
    rewrite BN_ofNumber_small
      by (change (2 ^ 53) with 9007199254740992; lia).
    cbn [rbind]. apply BN_div_pos. lia. }
  rewrite (E slip1 H1), (E slip2 H2). split; reflexivity.
Qed.

Lemma slippage_below_floor_witness :
  minimumAmountOutOf 19605 1000000 100 = minimumAmountOutOf 19605 1000000 1500.
Proof.
  apply (slippage_below_floor_is_ignored 19605 1000000 100 1500);
    vm_compute; discriminate.
Defined.

(** X7.  On an unsigned output the minimum-amount-out is non-negative, at
    most 95 percent of amountOut, and it does not grow when a larger
    slippage is requested. *)
Theorem minimumAmountOut_bounds_and_monotone
  (amountOut inputReserve slip1 slip2 m1 m2 : Z) :
  0 <= amountOut -> 0 <= slip1 <= slip2 -> slip2 < 10000 ->
  minimumAmountOutOf amountOut inputReserve slip1 = Ok m1 ->
  minimumAmountOutOf amountOut inputReserve slip2 = Ok m2 ->
  0 <= m2 <= m1 /\ 10000 * m1 <= 9500 * amountOut.
Proof.
  intros Ho Hs Hs2 H1 H2.
  rewrite minimumAmountOutOf_eq in H1, H2 by lia.
  apply Ok_inj in H1, H2. subst m1 m2.
  pose proof (effectiveSlippageBps_floor inputReserve slip1) as F1.
  pose proof (effectiveSlippageBps_upper inputReserve slip1 ltac:(lia)) as U1.
  pose proof (effectiveSlippageBps_upper inputReserve slip2 ltac:(lia)) as U2.
  assert (Hmono : effectiveSlippageBps inputReserve slip1
                  <= effectiveSlippageBps inputReserve slip2)
    by (unfold effectiveSlippageBps; lia).
  set (k1 := effectiveSlippageBps inputReserve slip1) in *.
  set (k2 := effectiveSlippageBps inputReserve slip2) in *.
  rewrite !Z.quot_div_nonneg by nia.
  repeat split.
  - apply Z.div_pos; nia.
  - apply Z.div_le_mono; nia.
  - pose proof (Z.mul_div_le (amountOut * (10000 - k1)) 10000 ltac:(lia)). nia.
Qed.

Lemma minimumAmountOut_bounds_witness :
  0 <= 15684 <= 16664 /\ 10000 * 16664 <= 9500 * 19605.
Proof.
  apply (minimumAmountOut_bounds_and_monotone 19605 1000000 100 2000
           16664 15684); try lia; reflexivity.
Defined.

(* ================================================================== *)
(** * Further properties of the decoder *)

Lemma le_decode_bound (n : nat) (bs : list byte) :
  (List.length bs <= n)%nat -> 0 <= le_decode bs < 256 ^ Z.of_nat n.
Proof.
  intros Hlen. pose proof (le_decode_range bs) as [H0 H1]. split; [exact H0|].
  eapply Z.lt_le_trans; [exact H1|]. apply Z.pow_le_mono_r; lia.
Qed.

Lemma key_slice_bound (a b : nat) (d : Buffer) :
  b = (a + 32)%nat -> 0 <= be_decode (subarray a b d) < 2 ^ 256.
Proof.
  intros ->. unfold be_decode. apply (le_decode_bound 32).
  rewrite length_rev. pose proof (length_subarray_le a (a + 32) d). lia.
Qed.

Lemma counter_slice_bound (a b : nat) (d : Buffer) :
  b = (a + 8)%nat -> 0 <= le_decode (subarray a b d) < 2 ^ 64.
Proof.
  intros ->. apply (le_decode_bound 8).
  pose proof (length_subarray_le a (a + 8) d). lia.
Qed.

(** X8.  Whatever the buffer, every decoded address is a 256-bit value and
    every decoded counter an unsigned 64-bit value, and the address field
    is the address the caller passed. *)
Theorem parsePoolState_fields_in_range
  (addr : PublicKey) (rawBytes : Buffer) (p : PoolState) :
  parsePoolState addr rawBytes = Ok p ->
  address p = addr /\
  Forall (fun k => 0 <= pk_bn k < 2 ^ 256)
    [ ammConfig p; poolCreator p; token0Vault p; token1Vault p; lpMint p;
      token0Mint p; token1Mint p; token0Program p; token1Program p;
      observationKey p ] /\
  Forall (fun v => 0 <= v < 2 ^ 64)
    [ lpSupply p; protocolFeesToken0 p; protocolFeesToken1 p;
      fundFeesToken0 p; fundFeesToken1 p; openTime p ].
Proof.
  rewrite parsePoolState_eq. intros E. apply Ok_inj in E. subst p.
  cbn [address ammConfig poolCreator token0Vault token1Vault lpMint token0Mint
       token1Mint token0Program token1Program observationKey lpSupply
       protocolFeesToken0 protocolFeesToken1 fundFeesToken0 fundFeesToken1
       openTime pk_bn].
  split; [reflexivity|]. split.
  - repeat (apply Forall_cons;
              [cbn beta; cbn [pk_bn]; apply key_slice_bound; reflexivity|]).
    apply Forall_nil.
  - repeat (apply Forall_cons;
              [cbn beta; apply counter_slice_bound; reflexivity|]).
    apply Forall_nil.
Qed.

Lemma parsePoolState_fields_in_range_witness :
  Forall (fun v => 0 <= v < 2 ^ 64)
    [ lpSupply Sample.pool; protocolFeesToken0 Sample.pool;
      protocolFeesToken1 Sample.pool; fundFeesToken0 Sample.pool;
      fundFeesToken1 Sample.pool; openTime Sample.pool ].
Proof.
  apply (parsePoolState_fields_in_range Sample.poolAddress Sample.poolData
           Sample.pool).
  vm_compute. reflexivity.
Defined.

Section LayoutSpan.

Local Open Scope nat_scope.

Lemma subarray_subarray (s e a b : nat) (d : Buffer) :
  s + b <= e -> a <= b ->
  subarray a b (subarray s e d) = subarray (s + a) (s + b) d.
Proof.
  intros Hb Hab. unfold subarray.
  rewrite skipn_firstn_comm, firstn_firstn, skipn_skipn.
  replace (Nat.min (b - a) (e - s - a)) with (s + b - (s + a)) by lia.
  replace (a + s) with (s + a) by lia. reflexivity.
Qed.

Lemma subarray_pad (a b : nat) (d : Buffer) :
  8 <= a -> a <= b -> b <= 381 ->
  subarray a b (repeat x00 8 ++ subarray 8 381 d) = subarray a b d.
Proof.
  intros Ha Hab Hb. unfold subarray at 1.
  rewrite skipn_app, repeat_length.
  rewrite (@skipn_all2 _ a (repeat x00 8)) by (rewrite repeat_length; lia).
  cbn [app]. fold (subarray (a - 8) (b - 8) (subarray 8 381 d)).
  replace (b - a) with (b - 8 - (a - 8)) by lia.
  fold (subarray (a - 8) (b - 8) (subarray 8 381 d)).
  rewrite subarray_subarray by lia.
  f_equal; lia.
Qed.

Lemma nth_error_pad (i : nat) (d : Buffer) :
  8 <= i -> i < 381 ->
  nth_error (repeat x00 8 ++ subarray 8 381 d) i = nth_error d i.
Proof.
  intros Hi Hu.
  rewrite nth_error_app2 by (rewrite repeat_length; lia).
  rewrite repeat_length. unfold subarray.
  rewrite nth_error_firstn, nth_error_skipn.
  destruct (Nat.ltb_spec (i - 8) (381 - 8)); [|lia].
  f_equal. lia.
Qed.

(** The decoder reads nothing outside bytes 8..380. *)
Lemma parsePoolState_reads_span (addr : PublicKey) (d : Buffer) :
  parsePoolState addr d
  = parsePoolState addr (repeat x00 8 ++ subarray 8 381 d).
Proof.
  rewrite (parsePoolState_eq addr d).
  rewrite (parsePoolState_eq addr (repeat x00 8 ++ subarray 8 381 d)).
  rewrite !subarray_pad by lia. rewrite !nth_error_pad by lia.
  reflexivity.
Qed.

End LayoutSpan.

(** X9.  Two records of at least 381 bytes decode to the same PoolState
    exactly when they agree on bytes 8..380: the decoder reads nothing
    else (in particular not the 8-byte account discriminator), and
    loses nothing of that span. *)
Theorem parsePoolState_determined_by_layout_span
  (addr : PublicKey) (d1 d2 : Buffer) :
  (LAYOUT_END <= List.length d1)%nat -> (LAYOUT_END <= List.length d2)%nat ->
  (parsePoolState addr d1 = parsePoolState addr d2 <->
   subarray LAYOUT_START LAYOUT_END d1 = subarray LAYOUT_START LAYOUT_END d2).
Proof.
  intros H1 H2. split.
  - intros E.
    pose proof (parsePoolState_eq addr d1) as P1.
    pose proof (parsePoolState_eq addr d2) as P2.
    rewrite E, P2 in P1. apply Ok_inj in P1.
    pose proof (encodedFields_parse addr d1 _ H1 (parsePoolState_eq addr d1)) as F1.
    pose proof (encodedFields_parse addr d2 _ H2 (parsePoolState_eq addr d2)) as F2.
    rewrite <- P1 in F1. rewrite F2 in F1.
    rewrite <- (layoutSlices_concat d1), <- (layoutSlices_concat d2).
    rewrite F1. reflexivity.
  - intros E.
    rewrite (parsePoolState_reads_span addr d1),
            (parsePoolState_reads_span addr d2).
    change (subarray 8 381 d1) with (subarray LAYOUT_START LAYOUT_END d1).
    change (subarray 8 381 d2) with (subarray LAYOUT_START LAYOUT_END d2).
    rewrite E. reflexivity.
Qed.

Lemma parsePoolState_determined_by_layout_span_witness :
  parsePoolState Sample.poolAddress Sample.poolData
  = parsePoolState Sample.poolAddress (repeat x00 8 ++ skipn 8 Sample.poolData).
Proof.
  apply (parsePoolState_determined_by_layout_span Sample.poolAddress
           Sample.poolData (repeat x00 8 ++ skipn 8 Sample.poolData)).
  - vm_compute. lia.
  - vm_compute. lia.
  - vm_compute. reflexivity.
Defined.

(* ================================================================== *)
(** * Further properties of the pool search *)

Lemma Z_of_byte_zero (b : byte) : Z_of_byte b = 0 <-> b = x00.
Proof.
  split.
  - intros H. rewrite <- (byte_of_Z_of_byte b), H. reflexivity.
  - intros ->. reflexivity.
Qed.

Lemma isActive_parse (pk : PublicKey) (d : Buffer) (p : PoolState) :
  parsePoolState pk d = Ok p ->
  (isActive p = true <-> nth_error d POOL_STATE_LAYOUT.STATUS = Some x00).
Proof.
  rewrite parsePoolState_eq. intros E. apply Ok_inj in E. subst p.
  unfold isActive. cbn [status].
  change POOL_STATE_LAYOUT.STATUS with 329%nat.
  destruct (nth_error d 329) as [b|].
  - rewrite Z.eqb_eq, Z_of_byte_zero. split; congruence.
  - split; discriminate.
Qed.

Lemma firstActivePool_app (l1 l2 : list (PublicKey * AccountInfo)) :
  firstActivePool (l1 ++ l2) =
  match firstActivePool l1 with
  | Some p => Some p
  | None => firstActivePool l2
  end.
Proof.
  induction l1 as [|[pk acc] l1 IH]; cbn [app firstActivePool]; [reflexivity|].
  destruct (parsePoolState pk (account_data acc)) as [p|]; [|exact IH].
  destruct (isActive p); [reflexivity|exact IH].
Qed.

(** X10.  The loop over the candidates returns the first one, in the order
    received, whose status byte (offset 329) is 0, decoded with the
    candidate's own address; candidates before it, also those too short
    to have a status byte, are skipped without error.  It returns null
    exactly when no candidate has status 0. *)
Theorem firstActivePool_first_active (l : list (PublicKey * AccountInfo)) :
  match firstActivePool l with
  | Some p =>
      exists pre c post,
        l = pre ++ c :: post /\
        Forall (fun c' => ~ hasActiveStatus c') pre /\
        hasActiveStatus c /\
        parsePoolState (fst c) (account_data (snd c)) = Ok p /\
        address p = fst c /\ status p = Some x00
  | None => Forall (fun c' => ~ hasActiveStatus c') l
  end.
Proof.
  induction l as [|[pk acc] l IH]; cbn [firstActivePool].
  - apply Forall_nil.
  - pose proof (parsePoolState_eq pk (account_data acc)) as Hp.
    destruct (parsePoolState pk (account_data acc)) as [p|] eqn:Hparse;
      [|discriminate Hp].
    pose proof (isActive_parse pk (account_data acc) p Hparse) as Hact.
    destruct (isActive p) eqn:Ha.
    + exists [], (pk, acc), l. cbn [app fst snd].
      assert (Hs : hasActiveStatus (pk, acc)) by (apply Hact; reflexivity).
      repeat split; try assumption.
      * apply Forall_nil.
      * apply Ok_inj in Hp. subst p. reflexivity.
      * apply Ok_inj in Hp. subst p. cbn [status]. exact Hs.
    + assert (Hn : ~ hasActiveStatus (pk, acc)).
      { intros Hs. apply Hact in Hs. discriminate Hs. }
      destruct (firstActivePool l) as [q|].
      * destruct IH as (pre & c & post & -> & Hpre & Hc & Hq).
        exists ((pk, acc) :: pre), c, post.
        split; [reflexivity|]. split; [apply Forall_cons; assumption|].
        split; assumption.
      * apply Forall_cons; assumption.
Qed.

Lemma findPoolByTokenPair_eq (connection : Connection) (tokenA tokenB : PublicKey)
  (w : World) :
  findPoolByTokenPair connection tokenA tokenB w =
  (Ok (firstActivePool
         (foundAccounts
            (getProgramAccounts connection (List.length (rpc_log w))
               RAYDIUM_CPMM_PROGRAM_ID (searchFilters tokenA tokenB))
          ++ foundAccounts
               (getProgramAccounts connection (S (List.length (rpc_log w)))
                  RAYDIUM_CPMM_PROGRAM_ID (searchFilters tokenB tokenA)))),
   advance
     [ GetProgramAccounts RAYDIUM_CPMM_PROGRAM_ID (searchFilters tokenA tokenB);
       GetProgramAccounts RAYDIUM_CPMM_PROGRAM_ID (searchFilters tokenB tokenA) ]
     0 w).
Proof.
  unfold findPoolByTokenPair, bind, Promise_all2, searchPools, try_catch,
    request, ret, advance.
  rewrite Nat.add_0_r.
  destruct (getProgramAccounts connection (List.length (rpc_log w)) _ _);
    cbn [rpc_log keypairs_drawn];
    rewrite length_app, Nat.add_1_r;
    destruct (getProgramAccounts connection (S (List.length (rpc_log w))) _ _);
    cbn [rbind fst snd foundAccounts rpc_log keypairs_drawn];
    rewrite <- app_assoc; reflexivity.
Qed.

(** X11.  The search by token pair never throws.  It issues exactly two
    searches of the swap program's accounts, first with tokenA in the
    first-mint slot and tokenB in the second, then reversed, each with
    the 637-byte size filter; a rejected search contributes no
    candidate.  A pool it returns is active and is decoded from one of
    the accounts received. *)
Theorem findPoolByTokenPair_never_throws
  (connection : Connection) (tokenA tokenB : PublicKey) (w : World) :
  let first := getProgramAccounts connection (List.length (rpc_log w))
                 RAYDIUM_CPMM_PROGRAM_ID (searchFilters tokenA tokenB) in
  let second := getProgramAccounts connection (S (List.length (rpc_log w)))
                  RAYDIUM_CPMM_PROGRAM_ID (searchFilters tokenB tokenA) in
  exists r,
    findPoolByTokenPair connection tokenA tokenB w =
    (Ok r,
     {| rpc_log := rpc_log w ++
          [ GetProgramAccounts RAYDIUM_CPMM_PROGRAM_ID
              [ DataSize 637; Memcmp 168 (toBase58 tokenA);
                Memcmp 200 (toBase58 tokenB) ];
            GetProgramAccounts RAYDIUM_CPMM_PROGRAM_ID
              [ DataSize 637; Memcmp 168 (toBase58 tokenB);
                Memcmp 200 (toBase58 tokenA) ] ];
        keypairs_drawn := keypairs_drawn w |}) /\
    (forall p, r = Some p ->
       status p = Some x00 /\
       exists c, In c (foundAccounts first ++ foundAccounts second) /\
                 parsePoolState (fst c) (account_data (snd c)) = Ok p) /\
    ((forall c, In c (foundAccounts first ++ foundAccounts second) ->
                ~ hasActiveStatus c) -> r = None).
Proof.
  cbv zeta. rewrite findPoolByTokenPair_eq.
  set (l := foundAccounts _ ++ foundAccounts _).
  exists (firstActivePool l). split.
  { unfold advance. rewrite Nat.add_0_r. reflexivity. }
  pose proof (firstActivePool_first_active l) as Hspec.
  split.
  - intros p Hr. rewrite Hr in Hspec.
    destruct Hspec as (pre & c & post & Hl & _ & _ & Hp & _ & Hs).
    split; [exact Hs|]. exists c. split; [|exact Hp].
    rewrite Hl. apply in_or_app. right. left. reflexivity.
  - intros Hnone. destruct (firstActivePool l) as [p|]; [|reflexivity].
    destruct Hspec as (pre & c & post & Hl & _ & Hc & _).
    exfalso. apply (Hnone c); [|exact Hc].
    rewrite Hl. apply in_or_app. right. left. reflexivity.
Qed.

Lemma findPoolByTokenPair_never_throws_witness :
  exists r,
    findPoolByTokenPair SampleSearch.connection NATIVE_MINT Sample.tokenMint
      Sample.world0 =
    (Ok r,
     {| rpc_log :=
          [ GetProgramAccounts RAYDIUM_CPMM_PROGRAM_ID
              [ DataSize 637; Memcmp 168 (toBase58 NATIVE_MINT);
                Memcmp 200 (toBase58 Sample.tokenMint) ];
            GetProgramAccounts RAYDIUM_CPMM_PROGRAM_ID
              [ DataSize 637; Memcmp 168 (toBase58 Sample.tokenMint);
                Memcmp 200 (toBase58 NATIVE_MINT) ] ];
        keypairs_drawn := 0 |}) /\
    r = Some Sample.pool.
Proof.
  destruct (findPoolByTokenPair_never_throws SampleSearch.connection NATIVE_MINT
              Sample.tokenMint Sample.world0) as (r & Hrun & _).
  exists r. split; [exact Hrun|].
  vm_compute in Hrun. injection Hrun as <-. reflexivity.
Defined.

(** X12.  On a ledger whose search answers do not change between
    requests, the search prefers the caller's own orientation: it
    returns the first active candidate of the (tokenA, tokenB) search if
    there is one, and otherwise that of the reversed search.  Hence
    searching (A, B) and (B, A) gives the same pool whenever at most one
    orientation has an active candidate. *)
Theorem findPoolByTokenPair_orientation
  (connection : Connection) (tokenA tokenB : PublicKey) (w w' : World) :
  stableSearch connection ->
  let ab := firstActivePool
              (foundAccounts (getProgramAccounts connection 0
                 RAYDIUM_CPMM_PROGRAM_ID (searchFilters tokenA tokenB))) in
  let ba := firstActivePool
              (foundAccounts (getProgramAccounts connection 0
                 RAYDIUM_CPMM_PROGRAM_ID (searchFilters tokenB tokenA))) in
  fst (findPoolByTokenPair connection tokenA tokenB w)
    = Ok (match ab with Some p => Some p | None => ba end) /\
  fst (findPoolByTokenPair connection tokenB tokenA w')
    = Ok (match ba with Some p => Some p | None => ab end) /\
  (ab = None \/ ba = None ->
   fst (findPoolByTokenPair connection tokenA tokenB w)
   = fst (findPoolByTokenPair connection tokenB tokenA w')).
Proof.
  intros Hstable. cbv zeta.
  rewrite !findPoolByTokenPair_eq. cbn [fst].
  rewrite !firstActivePool_app.
  rewrite (Hstable (List.length (rpc_log w)) 0%nat),
          (Hstable (S (List.length (rpc_log w))) 0%nat),
          (Hstable (List.length (rpc_log w')) 0%nat),
          (Hstable (S (List.length (rpc_log w'))) 0%nat).
  set (ab := firstActivePool (foundAccounts
                (getProgramAccounts connection 0 RAYDIUM_CPMM_PROGRAM_ID
                   (searchFilters tokenA tokenB)))).
  set (ba := firstActivePool (foundAccounts
                (getProgramAccounts connection 0 RAYDIUM_CPMM_PROGRAM_ID
                   (searchFilters tokenB tokenA)))).
  split; [reflexivity|]. split; [reflexivity|].
  intros [H|H]; rewrite H; [destruct ba|destruct ab]; reflexivity.
Qed.

Lemma findPoolByTokenPair_orientation_witness :
  fst (findPoolByTokenPair SampleSearch.connection NATIVE_MINT Sample.tokenMint
         Sample.world0)
  = fst (findPoolByTokenPair SampleSearch.connection Sample.tokenMint NATIVE_MINT
           Sample.world0).
Proof.
  apply (findPoolByTokenPair_orientation SampleSearch.connection NATIVE_MINT
           Sample.tokenMint Sample.world0 Sample.world0).
  - intros t t' program filters. reflexivity.
  - right. vm_compute. reflexivity.
Defined.


(* ================================================================== *)
(** * Further properties of the ledger reads *)

Lemma advance_nil (w : World) : advance [] 0 w = w.
Proof.
  destruct w as [l k]. unfold advance. cbn [rpc_log keypairs_drawn].
  rewrite app_nil_r, Nat.add_0_r. reflexivity.
Qed.

Lemma advance_advance (c1 c2 : list RpcCall) (d1 d2 : nat) (w : World) :
  advance c2 d2 (advance c1 d1 w) = advance (c1 ++ c2) (d1 + d2) w.
Proof.
  unfold advance. cbn [rpc_log keypairs_drawn].
  rewrite <- app_assoc, Nat.add_assoc. reflexivity.
Qed.

Lemma request_eq {A} (call : RpcCall) (answer : nat -> Result A) (w : World) :
  request call answer w = (answer (List.length (rpc_log w)), advance [call] 0 w).
Proof. unfold request, advance. rewrite Nat.add_0_r. reflexivity. Qed.

Lemma getVaultBalances_eq (connection : Connection) (pool : PoolState) (w : World) :
  getVaultBalances connection pool w =
  (match getTokenAccountBalance connection (List.length (rpc_log w))
           (token0Vault pool),
         getTokenAccountBalance connection (S (List.length (rpc_log w)))
           (token1Vault pool) with
   | Ok x, Ok y => Ok {| vault0Balance := x; vault1Balance := y |}
   | Throw e, _ => Throw e
   | Ok _, Throw e => Throw e
   end,
   advance (vaultReads pool) 0 w).
Proof.
  unfold getVaultBalances, bind, Promise_all2, request, ret, advance, vaultReads.
  cbn [rpc_log keypairs_drawn].
  rewrite length_app, Nat.add_1_r, <- app_assoc, Nat.add_0_r. cbn [app].
  destruct (getTokenAccountBalance connection (List.length (rpc_log w)) _);
    destruct (getTokenAccountBalance connection (S (List.length (rpc_log w))) _);
    reflexivity.
Qed.



Lemma getTokenProgramForMint_eq (connection : Connection) (mint : PublicKey)
  (w : World) :
  getTokenProgramForMint connection mint w =
  (if equals mint NATIVE_MINT then Ok TOKEN_PROGRAM_ID
   else match getAccountInfo connection (List.length (rpc_log w)) mint with
        | Ok (Some info) => Ok (account_owner info)
        | Ok None =>
            Throw (JsError (String.append "Mint account not found: "
                              (toBase58 mint)))
        | Throw e => Throw e
        end,
   advance (mintLookup mint) 0 w).
Proof.
  unfold getTokenProgramForMint, mintLookup.
  destruct (equals mint NATIVE_MINT).
  - rewrite advance_nil. reflexivity.
  - unfold bind. rewrite request_eq.
    destruct (getAccountInfo connection (List.length (rpc_log w)) mint)
      as [[info|]|e]; reflexivity.
Qed.

(** X14.  The token program of the wrapped-SOL mint is the standard token
    program, answered without any ledger request.  For any other mint
    one account read is issued: the owner of the mint account is
    returned, a missing account throws "Mint account not found: <mint>",
    and a rejected read throws its own error. *)
Theorem getTokenProgramForMint_outcomes
  (connection : Connection) (mint : PublicKey) (w : World) :
  (mint = NATIVE_MINT ->
   getTokenProgramForMint connection mint w = (Ok TOKEN_PROGRAM_ID, w)) /\
  (mint <> NATIVE_MINT ->
   let answer := getAccountInfo connection (List.length (rpc_log w)) mint in
   let w' := {| rpc_log := rpc_log w ++ [GetAccountInfo mint];
                keypairs_drawn := keypairs_drawn w |} in
   snd (getTokenProgramForMint connection mint w) = w' /\
   (forall info, answer = Ok (Some info) ->
      getTokenProgramForMint connection mint w = (Ok (account_owner info), w')) /\
   (answer = Ok None ->
      getTokenProgramForMint connection mint w =
      (Throw (JsError (String.append "Mint account not found: " (toBase58 mint))),
       w')) /\
   (forall e, answer = Throw e ->
      getTokenProgramForMint connection mint w = (Throw e, w'))).
Proof.
  rewrite getTokenProgramForMint_eq. unfold mintLookup. split.
  - intros ->. rewrite advance_nil. reflexivity.
  - intros Hne. apply equals_false in Hne. rewrite Hne. cbv zeta.
    assert (Hw : advance [GetAccountInfo mint] 0 w =
                 {| rpc_log := rpc_log w ++ [GetAccountInfo mint];
                    keypairs_drawn := keypairs_drawn w |})
      by (unfold advance; rewrite Nat.add_0_r; reflexivity).
    rewrite Hw. cbn [snd]. split; [reflexivity|].
    split; [intros info ->; reflexivity|].
    split; [intros ->; reflexivity|intros e ->; reflexivity].
Qed.

Lemma getTokenProgramForMint_outcomes_witness :
  getTokenProgramForMint Sample.connection NATIVE_MINT Sample.world0
  = (Ok TOKEN_PROGRAM_ID, Sample.world0).
Proof.
  apply (getTokenProgramForMint_outcomes Sample.connection NATIVE_MINT
           Sample.world0).
  reflexivity.
Defined.

(* ================================================================== *)
(** * Further properties of the transaction builder *)

Lemma BN_toNumber_iff (a : Z) :
  BN.toNumber a =
  if Z.abs a <? 2 ^ 53 then Ok a
  else Throw (AssertionFailed "Number can only safely store up to 53 bits").
Proof.
  unfold BN.toNumber, BN.bitLength.
  destruct (Z.eqb_spec a 0) as [->|Hne]; [reflexivity|].
  assert (Hpos : 0 < Z.abs a) by lia.
  pose proof (Z.log2_lt_pow2 (Z.abs a) 53 Hpos) as Hlog.
  destruct (Z.ltb_spec (Z.abs a) (2 ^ 53)) as [Hlt|Hge];
    destruct (Z.leb_spec (Z.log2 (Z.abs a) + 1) 53) as [Hle|Hgt];
    try reflexivity; exfalso.
  - apply Hlog in Hlt. lia.
  - assert (Z.abs a < 2 ^ 53) by (apply Hlog; lia). lia.
Qed.

Lemma substring_length_le (n : nat) (s : string) :
  (String.length (String.substring 0 n s) <= n)%nat.
Proof.
  revert s. induction n as [|n IH]; intros s.
  - destruct s; cbn; lia.
  - destruct s as [|c s]; cbn; [lia|]. specialize (IH s). lia.
Qed.

Lemma Number_add_exact (a b : Z) :
  Z.abs (a + b) <= 2 ^ 53 -> Number_add a b = a + b.
Proof.
  intros H. unfold Number_add.
  destruct (Z.leb_spec (Z.abs (a + b)) (2 ^ 53)); [reflexivity|lia].
Qed.

Lemma createTempWsolAccount_eq (pf : Platform) (payer : PublicKey) (amount : Z)
  (w : World) :
  let seed := String.substring 0 32
                (toBase58 (generateKeypair pf (keypairs_drawn w))) in
  let account := createWithSeed pf payer seed TOKEN_PROGRAM_ID in
  createTempWsolAccount pf payer amount w =
  (if Z.abs amount <? 2 ^ 53
   then Ok {| wsolAccount := account;
              tempSeed := seed;
              createInstruction :=
                CreateAccountWithSeed payer account payer seed
                  (Number_add TOKEN_ACCOUNT_RENT amount) ACCOUNT_SIZE
                  TOKEN_PROGRAM_ID;
              initInstruction :=
                InitializeAccount account NATIVE_MINT payer TOKEN_PROGRAM_ID |}
   else Throw (AssertionFailed "Number can only safely store up to 53 bits"),
   advance [] 1 w).
Proof.
  cbv zeta. unfold createTempWsolAccount, bind, Keypair_generate, lift, ret,
    advance.
  cbn [rpc_log keypairs_drawn].
  rewrite BN_toNumber_iff, app_nil_r, Nat.add_1_r.
  destruct (Z.abs amount <? 2 ^ 53); reflexivity.
Qed.

(** X15.  A temporary wrapped-SOL account is derived from the payer, the
    first 32 characters of a freshly drawn keypair's address (a seed of
    at most 32 characters) and the token program, without any ledger
    request.  For an amount between 0 and 2^53 minus the rent it is
    funded with exactly rent + amount lamports; the call succeeds exactly
    when the amount is below 2^53 in absolute value. *)
Theorem createTempWsolAccount_funding
  (pf : Platform) (payer : PublicKey) (amount : Z) (w : World) :
  let seed := String.substring 0 32
                (toBase58 (generateKeypair pf (keypairs_drawn w))) in
  let account := createWithSeed pf payer seed TOKEN_PROGRAM_ID in
  (String.length seed <= 32)%nat /\
  snd (createTempWsolAccount pf payer amount w) =
    {| rpc_log := rpc_log w; keypairs_drawn := S (keypairs_drawn w) |} /\
  (isOk (fst (createTempWsolAccount pf payer amount w)) = true <->
   Z.abs amount < 2 ^ 53) /\
  (0 <= amount <= 2 ^ 53 - TOKEN_ACCOUNT_RENT ->
   fst (createTempWsolAccount pf payer amount w) =
   Ok {| wsolAccount := account;
         tempSeed := seed;
         createInstruction :=
           CreateAccountWithSeed payer account payer seed
             (TOKEN_ACCOUNT_RENT + amount) ACCOUNT_SIZE TOKEN_PROGRAM_ID;
         initInstruction :=
           InitializeAccount account NATIVE_MINT payer TOKEN_PROGRAM_ID |}).
Proof.
  cbv zeta. rewrite createTempWsolAccount_eq. cbv zeta. cbn [fst snd].
  split; [apply substring_length_le|].
  split.
  { unfold advance. cbn [rpc_log keypairs_drawn].
    rewrite app_nil_r, Nat.add_1_r. reflexivity. }
  split.
  - destruct (Z.ltb_spec (Z.abs amount) (2 ^ 53)); cbn [isOk];
      split; intros; (assumption || reflexivity || discriminate || lia).
  - intros Hr. unfold TOKEN_ACCOUNT_RENT in *.
    destruct (Z.ltb_spec (Z.abs amount) (2 ^ 53)); [|lia].
    rewrite Number_add_exact by lia. reflexivity.
Qed.

Lemma createTempWsolAccount_funding_witness :
  exists t,
    fst (createTempWsolAccount Sample.platform Sample.wallet 10000 Sample.world0)
      = Ok t /\
    createInstruction t =
      CreateAccountWithSeed Sample.wallet (wsolAccount t) Sample.wallet
        (tempSeed t) 2049280 165 TOKEN_PROGRAM_ID.
Proof.
  destruct (createTempWsolAccount_funding Sample.platform Sample.wallet 10000
              Sample.world0) as (_ & _ & _ & H).
  rewrite H by (vm_compute; split; discriminate).
  eexists. split; reflexivity.
Defined.

Lemma getPoolStateByAddress_world (connection : Connection) (a : PublicKey)
  (w : World) :
  snd (getPoolStateByAddress connection a w) = advance [GetAccountInfo a] 0 w.
Proof.
  rewrite getPoolStateByAddress_eq. unfold afterRead, advance.
  rewrite Nat.add_0_r. reflexivity.
Qed.

Lemma poolLookup_world connection inMint outMint poolAddr w :
  snd (poolLookup connection inMint outMint poolAddr w)
  = advance (poolLookupCalls inMint outMint poolAddr) 0 w.
Proof.
  unfold poolLookup, poolLookupCalls. destruct poolAddr as [a|].
  - apply getPoolStateByAddress_world.
  - rewrite findPoolByTokenPair_eq. reflexivity.
Qed.

Lemma poolLookup_never_throws connection inMint outMint poolAddr w :
  exists r, fst (poolLookup connection inMint outMint poolAddr w) = Ok r.
Proof.
  unfold poolLookup. destruct poolAddr as [a|].
  - rewrite getPoolStateByAddress_eq. eexists. reflexivity.
  - rewrite findPoolByTokenPair_eq. eexists. reflexivity.
Qed.

Lemma getSwapQuote_world connection pool inMint outMint aIn slip w :
  snd (getSwapQuote connection pool inMint outMint aIn slip w)
  = advance (vaultReads pool) 0 w.
Proof.
  unfold getSwapQuote, bind, lift. rewrite getVaultBalances_eq.
  destruct (getTokenAccountBalance connection (List.length (rpc_log w))
              (token0Vault pool));
    destruct (getTokenAccountBalance connection (S (List.length (rpc_log w)))
                (token1Vault pool));
    reflexivity.
Qed.

Lemma run_world {A} (m : M A) (w w1 : World) (r : Result A) :
  m w = (r, w1) -> w1 = snd (m w).
Proof. intros ->. reflexivity. Qed.

(** Everything a successful build went through. *)
Lemma createSwapTransaction_inv
  (pf : Platform) (connection : Connection) (payer inMint outMint : PublicKey)
  (aIn slip : Z) (poolAddr : option PublicKey) (w w' : World)
  (res : SwapTransaction) :
  createSwapTransaction pf connection payer inMint outMint aIn slip poolAddr w
    = (Ok res, w') ->
  exists w1 balances inProg outProg inAcc outAcc swapIx setup closes blockhash,
    poolLookup connection inMint outMint poolAddr w
      = (Ok (Some (poolState res)), w1) /\
    fst (getVaultBalances connection (poolState res) w1) = Ok balances /\
    quoteFromBalances (poolState res) balances inMint outMint aIn slip
      = Ok (quote res) /\
    buildSwapInstruction (poolState res) payer inAcc outAcc inMint outMint
      inProg outProg (amountIn (quote res)) (minimumAmountOut (quote res))
      = Ok swapIx /\
    transaction res =
      {| payerKey := payer; recentBlockhash := blockhash;
         instructions := setup ++ Swap swapIx :: closes |} /\
    Forall (fun i => isSwap i = false) setup /\
    Forall (fun i => isSwap i = false) closes /\
    (equals inMint NATIVE_MINT = true -> Z.abs aIn < 2 ^ 53) /\
    w' = advance
           (poolLookupCalls inMint outMint poolAddr
            ++ vaultReads (poolState res)
            ++ mintLookup inMint ++ mintLookup outMint
            ++ [GetLatestBlockhash])
           (Nat.b2n (equals inMint NATIVE_MINT)
            + Nat.b2n (equals outMint NATIVE_MINT)) w.
Proof.
  intros H. unfold createSwapTransaction in H.
  fold (poolLookup connection inMint outMint poolAddr) in H.
  await_inv H found w1 Hfound.
  destruct found as [pool|]; [|discriminate H].
  await_inv H q w2 Hq.
  await_inv H inProg w3 HinProg.
  await_inv H outProg w4 HoutProg.
  await_inv H inputSide w5 Hin.
  destruct inputSide as [[inAcc tempIn] inSetup].
  await_inv H outputSide w6 Hout.
  destruct outputSide as [[outAcc tempOut] outSetup].
  await_inv H swapIx w7 Hswap.
  apply lift_Ok_inv in Hswap. destruct Hswap as [Hswap ->].
  await_inv H blockhash w8 Hblock.
  apply ret_Ok_inv in H. destruct H as [-> ->].
  cbn [transaction quote poolState].
  (* the state after each step *)
  pose proof (run_world _ _ _ _ Hfound) as E1. rewrite poolLookup_world in E1.
  pose proof (run_world _ _ _ _ Hq) as E2. rewrite getSwapQuote_world in E2.
  pose proof (run_world _ _ _ _ HinProg) as E3.
  rewrite getTokenProgramForMint_eq in E3. cbn [snd] in E3.
  pose proof (run_world _ _ _ _ HoutProg) as E4.
  rewrite getTokenProgramForMint_eq in E4. cbn [snd] in E4.
  pose proof (run_world _ _ _ _ Hblock) as E8. rewrite request_eq in E8.
  cbn [snd] in E8.
  (* the quote *)
  pose proof Hq as Hq'. apply getSwapQuote_inv in Hq'.
  destruct Hq' as (balances & Hbal & Hquote).
  (* the two sides *)
  assert (Hi : exists inSeed,
             (tempIn, inSetup) =
             (if equals inMint NATIVE_MINT
              then (Some inAcc,
                    [ CreateAccountWithSeed payer inAcc payer inSeed
                        (Number_add TOKEN_ACCOUNT_RENT aIn) ACCOUNT_SIZE
                        TOKEN_PROGRAM_ID;
                      InitializeAccount inAcc NATIVE_MINT payer TOKEN_PROGRAM_ID ])
              else (None, [])) /\
             w5 = advance [] (Nat.b2n (equals inMint NATIVE_MINT)) w4 /\
             (equals inMint NATIVE_MINT = true -> Z.abs aIn < 2 ^ 53)).
  { destruct (equals inMint NATIVE_MINT).
    - await_inv Hin t wt Ht.
      pose proof (run_world _ _ _ _ Ht) as Et.
      pose proof (f_equal fst Ht) as Ft.
      rewrite createTempWsolAccount_eq in Et, Ft. cbn [fst snd] in Et, Ft.
      destruct (Z.ltb_spec (Z.abs aIn) (2 ^ 53)); [|discriminate Ft].
      apply Ok_inj in Ft.
      set (seed := String.substring 0 32 _) in Ft. clearbody seed. subst t.
      apply ret_Ok_inv in Hin. destruct Hin as [[= -> -> ->] ->].
      eexists. split; [reflexivity|]. split; [exact Et|]. intros _. assumption.
    - await_inv Hin ata wt Hata.
      apply lift_Ok_inv in Hata. destruct Hata as [_ ->].
      apply ret_Ok_inv in Hin. destruct Hin as [[= -> -> ->] ->].
      exists EmptyString. split; [reflexivity|].
      split; [symmetry; apply advance_nil|discriminate]. }
  assert (Ho : exists outSeed,
             (tempOut, outSetup) =
             (if equals outMint NATIVE_MINT
              then (Some outAcc,
                    [ CreateAccountWithSeed payer outAcc payer outSeed
                        TOKEN_ACCOUNT_RENT ACCOUNT_SIZE TOKEN_PROGRAM_ID;
                      InitializeAccount outAcc NATIVE_MINT payer TOKEN_PROGRAM_ID ])
              else (None,
                    [ CreateAssociatedTokenAccountIdempotent payer outAcc payer
                        outMint outProg ])) /\
             w6 = advance [] (Nat.b2n (equals outMint NATIVE_MINT)) w5).
  { destruct (equals outMint NATIVE_MINT).
    - await_inv Hout t wt Ht.
      pose proof (run_world _ _ _ _ Ht) as Et.
      pose proof (f_equal fst Ht) as Ft.
      rewrite createTempWsolAccount_eq in Et, Ft. cbn [fst snd] in Et, Ft.
      change (Z.abs 0 <? 2 ^ 53) with true in Ft.
      apply Ok_inj in Ft.
      set (seed := String.substring 0 32 _) in Ft. clearbody seed. subst t.
      apply ret_Ok_inv in Hout. destruct Hout as [[= -> -> ->] ->].
      eexists. split; [reflexivity|exact Et].
    - await_inv Hout ata wt Hata.
      apply lift_Ok_inv in Hata. destruct Hata as [_ ->].
      apply ret_Ok_inv in Hout. destruct Hout as [[= -> -> ->] ->].
      exists EmptyString. split; [reflexivity|symmetry; apply advance_nil]. }
  destruct Hi as (inSeed & Hi & E5 & Hsafe), Ho as (outSeed & Ho & E6).
  assert (E1' : w1 = snd (poolLookup connection inMint outMint poolAddr w))
    by (rewrite Hfound; reflexivity).
  exists w1, balances, inProg, outProg, inAcc, outAcc, swapIx.
  exists ([ SetComputeUnitLimit 300000; SetComputeUnitPrice 50000 ]
          ++ inSetup ++ outSetup).
  exists (optionToList tempOut
            (fun account => [ CloseAccount account payer payer TOKEN_PROGRAM_ID ])
          ++ optionToList tempIn
               (fun account => [ CloseAccount account payer payer TOKEN_PROGRAM_ID ])).
  exists blockhash.
  split; [exact Hfound|].
  split; [rewrite Hbal; reflexivity|].
  split; [exact Hquote|].
  split; [destruct q; exact Hswap|].
  split.
  { f_equal. rewrite <- !app_assoc. reflexivity. }
  split.
  { destruct (equals inMint NATIVE_MINT), (equals outMint NATIVE_MINT);
      injection Hi as -> ->; injection Ho as -> ->;
      repeat (apply Forall_cons; [reflexivity|]); apply Forall_nil. }
  split.
  { destruct (equals inMint NATIVE_MINT), (equals outMint NATIVE_MINT);
      injection Hi as -> ->; injection Ho as -> ->;
      repeat (apply Forall_cons; [reflexivity|]); apply Forall_nil. }
  split; [exact Hsafe|].
  rewrite E8, E6, E5, E4, E3, E2, E1.
  rewrite !advance_advance. unfold advance. f_equal. lia.
Qed.

(** X16.  When the pool lookup finds nothing the builder throws "No
    Raydium CPMM pool found for <input> and <output>" right after the
    lookup's own requests.  With a pool address supplied that is one
    account read: a missing account, an account of another program or a
    rejected read ends the build there, without falling back to the
    search by token pair. *)
Theorem createSwapTransaction_without_pool
  (pf : Platform) (connection : Connection) (payer inMint outMint : PublicKey)
  (aIn slip : Z) (poolAddr : option PublicKey) (w : World) :
  (fst (poolLookup connection inMint outMint poolAddr w) = Ok None ->
   createSwapTransaction pf connection payer inMint outMint aIn slip poolAddr w
   = (Throw (JsError (noPoolMessage inMint outMint)),
      advance (poolLookupCalls inMint outMint poolAddr) 0 w)) /\
  (forall a,
     poolAddr = Some a ->
     (forall info,
        getAccountInfo connection (List.length (rpc_log w)) a = Ok (Some info) ->
        toBase58 (account_owner info) <> toBase58 RAYDIUM_CPMM_PROGRAM_ID) ->
     createSwapTransaction pf connection payer inMint outMint aIn slip poolAddr w
     = (Throw (JsError (noPoolMessage inMint outMint)),
        {| rpc_log := rpc_log w ++ [GetAccountInfo a];
           keypairs_drawn := keypairs_drawn w |})).
Proof.
  assert (Hgen : fst (poolLookup connection inMint outMint poolAddr w) = Ok None ->
    createSwapTransaction pf connection payer inMint outMint aIn slip poolAddr w
    = (Throw (JsError (noPoolMessage inMint outMint)),
       advance (poolLookupCalls inMint outMint poolAddr) 0 w)).
  { intros Hnone. unfold createSwapTransaction.
    fold (poolLookup connection inMint outMint poolAddr). unfold bind.
    pose proof (poolLookup_world connection inMint outMint poolAddr w) as Hw.
    destruct (poolLookup connection inMint outMint poolAddr w) as [r w1].
    cbn [fst snd] in Hnone, Hw. subst r w1. reflexivity. }
  split; [exact Hgen|].
  intros a -> Hanswer. rewrite Hgen.
  - unfold advance, poolLookupCalls. rewrite Nat.add_0_r. reflexivity.
  - unfold poolLookup. rewrite getPoolStateByAddress_eq. cbn [fst].
    destruct (getAccountInfo connection (List.length (rpc_log w)) a)
      as [[info|]|e]; try reflexivity.
    specialize (Hanswer info eq_refl). unfold ownedByCpmm.
    apply String.eqb_neq in Hanswer. rewrite Hanswer. reflexivity.
Qed.

Lemma createSwapTransaction_without_pool_witness :
  createSwapTransaction Sample.platform Sample.emptyLedger Sample.wallet
    NATIVE_MINT Sample.tokenMint 10000 100 (Some Sample.poolAddress)
    Sample.world0
  = (Throw (JsError (noPoolMessage NATIVE_MINT Sample.tokenMint)),
     {| rpc_log := [GetAccountInfo Sample.poolAddress]; keypairs_drawn := 0 |}).
Proof.
  apply (createSwapTransaction_without_pool Sample.platform Sample.emptyLedger
           Sample.wallet NATIVE_MINT Sample.tokenMint 10000 100
           (Some Sample.poolAddress) Sample.world0) with (a := Sample.poolAddress).
  - reflexivity.
  - intros info H. discriminate H.
Defined.

Lemma buildSwapInstruction_payload pool payer inAcc outAcc inMint outMint
      inProg outProg aIn m ix :
  buildSwapInstruction pool payer inAcc outAcc inMint outMint inProg outProg
    aIn m = Ok ix ->
  0 <= aIn < 2 ^ 64 /\ 0 <= m < 2 ^ 64 /\
  programId ix = RAYDIUM_CPMM_PROGRAM_ID /\
  data ix = SWAP_BASE_INPUT_DISCRIMINATOR ++ le_encode 8 aIn ++ le_encode 8 m /\
  le_decode (subarray 8 16 (data ix)) = aIn /\
  le_decode (subarray 16 24 (data ix)) = m.
Proof.
  unfold buildSwapInstruction.
  destruct (swapVaults pool inMint) as [iv ov].
  destruct (writeBigUInt64LE aIn) as [ab|] eqn:Ha; cbn [rbind]; [|discriminate].
  destruct (writeBigUInt64LE m) as [mb|] eqn:Hm; cbn [rbind]; [|discriminate].
  apply writeBigUInt64LE_inv in Ha, Hm.
  destruct Ha as [Ha ->], Hm as [Hm ->].
  intros E. apply Ok_inj in E. subst ix. cbn [data programId].
  repeat (split; [assumption || reflexivity|]).
  assert (Hsplit : forall a b : list byte,
             List.length a = 8%nat -> List.length b = 8%nat ->
             subarray 8 16 (SWAP_BASE_INPUT_DISCRIMINATOR ++ a ++ b) = a /\
             subarray 16 24 (SWAP_BASE_INPUT_DISCRIMINATOR ++ a ++ b) = b).
  { intros a b La Lb.
    do 9 (destruct a as [|? a]; try discriminate La).
    do 9 (destruct b as [|? b]; try discriminate Lb).
    split; reflexivity. }
  destruct (Hsplit (le_encode 8 aIn) (le_encode 8 m)
              (length_le_encode 8 aIn) (length_le_encode 8 m)) as [-> ->].
  rewrite !le_decode_le_encode by (change (256 ^ Z.of_nat 8) with (2 ^ 64); lia).
  split; reflexivity.
Qed.

(** X17.  Every transaction the builder returns is paid by the payer and
    holds exactly one swap instruction, addressed to the swap program,
    whose payload decodes to the caller's amountIn and to the
    minimum-amount-out of the quote returned with it.  So the builder
    returns a transaction only for an amountIn in the unsigned 64-bit
    range (below 2^53 when the input is the native asset), and the quote
    returned is for the mints and amount asked. *)
Theorem createSwapTransaction_carries_the_quote
  (pf : Platform) (connection : Connection) (payer inMint outMint : PublicKey)
  (aIn slip : Z) (poolAddr : option PublicKey) (w w' : World)
  (res : SwapTransaction) :
  createSwapTransaction pf connection payer inMint outMint aIn slip poolAddr w
    = (Ok res, w') ->
  payerKey (transaction res) = payer /\
  amountIn (quote res) = aIn /\
  inputMint (quote res) = inMint /\ outputMint (quote res) = outMint /\
  0 <= aIn < 2 ^ 64 /\
  (equals inMint NATIVE_MINT = true -> aIn < 2 ^ 53) /\
  0 <= minimumAmountOut (quote res) < 2 ^ 64 /\
  exists ix,
    filter isSwap (instructions (transaction res)) = [Swap ix] /\
    programId ix = RAYDIUM_CPMM_PROGRAM_ID /\
    le_decode (subarray 8 16 (data ix)) = aIn /\
    le_decode (subarray 16 24 (data ix)) = minimumAmountOut (quote res).
Proof.
  intros H. apply createSwapTransaction_inv in H.
  destruct H as (w1 & balances & inProg & outProg & inAcc & outAcc & swapIx
                 & setup & closes & blockhash & _ & _ & Hquote & Hbuild & Htx
                 & Hsetup & Hcloses & Hsafe & _).
  apply quoteFromBalances_inv in Hquote.
  destruct Hquote as (pi & _ & _ & HaIn & _ & HinMint & HoutMint).
  apply buildSwapInstruction_payload in Hbuild.
  rewrite HaIn in Hbuild.
  destruct Hbuild as (Ha & Hm & Hprog & _ & Hd1 & Hd2).
  rewrite Htx. cbn [payerKey instructions].
  repeat (split; [assumption || reflexivity|]).
  split; [intros Hn; specialize (Hsafe Hn); lia|].
  split; [exact Hm|].
  exists swapIx. split; [|repeat split; assumption].
  assert (Hnone : forall l, Forall (fun i => isSwap i = false) l ->
                            filter isSwap l = []).
  { induction l as [|i l IH]; intros Hl; [reflexivity|].
    inversion Hl as [|? ? Hi Hl']; subst. cbn [filter]. rewrite Hi.
    apply IH. exact Hl'. }
  rewrite filter_app. cbn [filter isSwap].
  rewrite (Hnone setup Hsetup), (Hnone closes Hcloses). reflexivity.
Qed.

Lemma createSwapTransaction_carries_the_quote_witness :
  exists res w',
    createSwapTransaction Sample.platform Sample.connection Sample.wallet
      Sample.tokenMint NATIVE_MINT 5000 100 (Some Sample.poolAddress)
      Sample.world0 = (Ok res, w') /\
    amountIn (quote res) = 5000 /\
    List.length (filter isSwap (instructions (transaction res))) = 1%nat.
Proof.
  assert (H : exists res w',
             createSwapTransaction Sample.platform Sample.connection
               Sample.wallet Sample.tokenMint NATIVE_MINT 5000 100
               (Some Sample.poolAddress) Sample.world0 = (Ok res, w'))
    by (eexists _, _; vm_compute; reflexivity).
  destruct H as (res & w' & H).
  exists res, w'. split; [exact H|].
  destruct (createSwapTransaction_carries_the_quote Sample.platform
              Sample.connection Sample.wallet Sample.tokenMint NATIVE_MINT
              5000 100 (Some Sample.poolAddress) Sample.world0 w' res H)
    as (_ & HaIn & _ & _ & _ & _ & _ & ix & Hix & _).
  split; [exact HaIn|]. rewrite Hix. reflexivity.
Defined.

(** X18.  A successful build costs a fixed sequence of ledger requests:
    the pool lookup (one account read with a pool address, else the two
    searches), the two vault balance reads, one mint-account read for
    each side that is not the native mint (input side first), and the
    latest blockhash; and it draws one keypair for each side that is the
    native mint. *)
Theorem createSwapTransaction_requests
  (pf : Platform) (connection : Connection) (payer inMint outMint : PublicKey)
  (aIn slip : Z) (poolAddr : option PublicKey) (w w' : World)
  (res : SwapTransaction) :
  createSwapTransaction pf connection payer inMint outMint aIn slip poolAddr w
    = (Ok res, w') ->
  rpc_log w' =
    rpc_log w
    ++ match poolAddr with
       | Some a => [GetAccountInfo a]
       | None =>
           [ GetProgramAccounts RAYDIUM_CPMM_PROGRAM_ID
               (searchFilters inMint outMint);
             GetProgramAccounts RAYDIUM_CPMM_PROGRAM_ID
               (searchFilters outMint inMint) ]
       end
    ++ [ GetTokenAccountBalance (token0Vault (poolState res));
         GetTokenAccountBalance (token1Vault (poolState res)) ]
    ++ (if equals inMint NATIVE_MINT then [] else [GetAccountInfo inMint])
    ++ (if equals outMint NATIVE_MINT then [] else [GetAccountInfo outMint])
    ++ [GetLatestBlockhash] /\
  keypairs_drawn w' =
    (keypairs_drawn w + Nat.b2n (equals inMint NATIVE_MINT)
     + Nat.b2n (equals outMint NATIVE_MINT))%nat.
Proof.
  intros H. apply createSwapTransaction_inv in H.
  destruct H as (w1 & balances & inProg & outProg & inAcc & outAcc & swapIx
                 & setup & closes & blockhash & _ & _ & _ & _ & _ & _ & _ & _
                 & ->).
  unfold advance. cbn [rpc_log keypairs_drawn]. split; [reflexivity|lia].
Qed.

Lemma createSwapTransaction_requests_witness :
  exists res w',
    createSwapTransaction Sample.platform Sample.connection Sample.wallet
      NATIVE_MINT Sample.tokenMint 10000 100 (Some Sample.poolAddress)
      Sample.world0 = (Ok res, w') /\
    rpc_log w' =
      [ GetAccountInfo Sample.poolAddress;
        GetTokenAccountBalance Sample.vault0;
        GetTokenAccountBalance Sample.vault1;
        GetAccountInfo Sample.tokenMint;
        GetLatestBlockhash ] /\
    keypairs_drawn w' = 1%nat.
Proof.
  assert (H : exists res w',
             createSwapTransaction Sample.platform Sample.connection
               Sample.wallet NATIVE_MINT Sample.tokenMint 10000 100
               (Some Sample.poolAddress) Sample.world0 = (Ok res, w'))
    by (eexists _, _; vm_compute; reflexivity).
  destruct H as (res & w' & H).
  exists res, w'. split; [exact H|].
  destruct (createSwapTransaction_requests Sample.platform Sample.connection
              Sample.wallet NATIVE_MINT Sample.tokenMint 10000 100
              (Some Sample.poolAddress) Sample.world0 w' res H) as [Hlog Hkeys].
  split; [|exact Hkeys].
  rewrite Hlog.
  assert (Hp : poolState res = Sample.pool).
  { vm_compute in H. injection H as <- _. reflexivity. }
  rewrite Hp. reflexivity.
Defined.

Lemma calculateSwapOutput_zero_reserve (a r f : Z) :
  exists e, calculateSwapOutput a 0 r f = Throw e.
Proof.
  unfold calculateSwapOutput, amountInAfterFee, feeMultiplier.
  destruct (BN.ofNumber (10000 - f)) as [m|e]; cbn [rbind];
    [|eexists; reflexivity].
  destruct (BN.div (a * m) feeDivisor) as [a'|e]; cbn [rbind];
    [|eexists; reflexivity].
  destruct (BN.div (a' * r) (0 + a')) as [o|e]; cbn [rbind];
    [|eexists; reflexivity].
  eexists. reflexivity.
Qed.

Lemma minimumAmountOutOf_le_any_slippage (out inputReserve slip m : Z) :
  0 <= out -> minimumAmountOutOf out inputReserve slip = Ok m -> m <= out.
Proof.
  intros Ho. unfold minimumAmountOutOf.
  pose proof (effectiveSlippageBps_floor inputReserve slip) as Hf.
  set (k := 10000 - effectiveSlippageBps inputReserve slip) in *.
  assert (Hk : k <= 9500) by (subst k; lia). clearbody k.
  destruct (BN.ofNumber k) as [k'|] eqn:Hn; cbn [rbind]; [|discriminate].
  unfold BN.ofNumber in Hn. destruct (Z.abs k <? 2 ^ 53); [|discriminate Hn].
  apply Ok_inj in Hn. subst k'.
  rewrite BN_div_pos by lia. intros E. apply Ok_inj in E. subst m.
  destruct (Z.le_gt_cases 0 k) as [Hpos|Hneg].
  - rewrite Z.quot_div_nonneg by nia. apply Z.div_le_upper_bound; nia.
  - replace (out * k) with (- (out * - k)) by ring.
    rewrite Z.quot_opp_l by lia.
    assert (0 <= Z.quot (out * - k) 10000) by (apply Z.quot_pos; nia).
    lia.
Qed.

Lemma getVaultBalances_unsigned connection pool w balances :
  unsignedBalances connection ->
  fst (getVaultBalances connection pool w) = Ok balances ->
  0 <= vault0Balance balances /\ 0 <= vault1Balance balances.
Proof.
  intros Hu. rewrite getVaultBalances_eq. cbn [fst].
  destruct (getTokenAccountBalance connection (List.length (rpc_log w))
              (token0Vault pool)) as [x|] eqn:H0; [|discriminate].
  destruct (getTokenAccountBalance connection (S (List.length (rpc_log w)))
              (token1Vault pool)) as [y|] eqn:H1; [|discriminate].
  intros E. apply Ok_inj in E. subst balances. cbn.
  split; [apply (Hu _ _ _ H0)|apply (Hu _ _ _ H1)].
Qed.

(** X19.  On a ledger that reports unsigned balances, every transaction
    the builder returns was quoted on a funded input vault, and its
    minimum-amount-out is at most the quoted amountOut, which is the
    constant-product output at the 100 bps fee for the balances read and
    never exceeds the balance of the output vault. *)
Theorem createSwapTransaction_minimum_within_reserves
  (pf : Platform) (connection : Connection) (payer inMint outMint : PublicKey)
  (aIn slip : Z) (poolAddr : option PublicKey) (w w' : World)
  (res : SwapTransaction) :
  unsignedBalances connection ->
  createSwapTransaction pf connection payer inMint outMint aIn slip poolAddr w
    = (Ok res, w') ->
  exists balances,
    fst (getVaultBalances connection (poolState res)
           (advance (poolLookupCalls inMint outMint poolAddr) 0 w))
      = Ok balances /\
    let inputReserve := fst (swapReserves (poolState res) balances inMint) in
    let outputReserve := snd (swapReserves (poolState res) balances inMint) in
    0 < inputReserve /\
    amountOut (quote res) = constantProductOut aIn inputReserve outputReserve 100 /\
    0 <= minimumAmountOut (quote res) <= amountOut (quote res) /\
    amountOut (quote res) <= outputReserve.
Proof.
  intros Hu H.
  pose proof H as Hinv. apply createSwapTransaction_inv in Hinv.
  destruct Hinv as (w1 & balances & inProg & outProg & inAcc & outAcc & swapIx
                    & setup & closes & blockhash & Hlookup & Hbal & Hquote
                    & Hbuild & _).
  pose proof (run_world _ _ _ _ Hlookup) as Hw1.
  rewrite poolLookup_world in Hw1. subst w1.
  exists balances. split; [exact Hbal|]. cbv zeta.
  pose proof (getVaultBalances_unsigned _ _ _ _ Hu Hbal) as [Hb0 Hb1].
  pose proof (swapReserves_nonneg (poolState res) balances inMint Hb0 Hb1)
    as [HinR HoutR].
  apply quoteFromBalances_inv in Hquote.
  destruct Hquote as (pi & Hcalc & Hmin & HaIn & _).
  apply buildSwapInstruction_payload in Hbuild.
  destruct Hbuild as (Ha & Hm & _). rewrite HaIn in Ha.
  set (inR := fst (swapReserves (poolState res) balances inMint)) in *.
  set (outR := snd (swapReserves (poolState res) balances inMint)) in *.
  assert (Hpos : 0 < inR).
  { destruct (Z.eq_dec inR 0) as [Hz|Hnz]; [|lia].
    rewrite Hz in Hcalc.
    destruct (calculateSwapOutput_zero_reserve aIn outR 100) as [e He].
    rewrite He in Hcalc. discriminate Hcalc. }
  rewrite calculateSwapOutput_value in Hcalc by lia.
  apply Ok_inj in Hcalc. injection Hcalc as Hout _.
  pose proof (constantProductOut_bounds aIn inR outR 100 ltac:(lia) Hpos HoutR
                ltac:(lia)) as [Hnn Hk].
  pose proof (effectiveInOf_nonneg aIn 100 ltac:(lia) ltac:(lia)) as He.
  rewrite <- Hout in Hmin |- *.
  split; [exact Hpos|]. split; [reflexivity|].
  split.
  - split; [lia|].
    apply (minimumAmountOutOf_le_any_slippage _ inR slip); assumption.
  - unfold constantProductOut. apply Z.div_le_upper_bound; nia.
Qed.

Lemma createSwapTransaction_minimum_within_reserves_witness :
  exists res w',
    createSwapTransaction Sample.platform Sample.connection Sample.wallet
      NATIVE_MINT Sample.tokenMint 10000 100 (Some Sample.poolAddress)
      Sample.world0 = (Ok res, w') /\
    0 <= minimumAmountOut (quote res) <= amountOut (quote res).
Proof.
  assert (H : exists res w',
             createSwapTransaction Sample.platform Sample.connection
               Sample.wallet NATIVE_MINT Sample.tokenMint 10000 100
               (Some Sample.poolAddress) Sample.world0 = (Ok res, w'))
    by (eexists _, _; vm_compute; reflexivity).
  destruct H as (res & w' & H).
  exists res, w'. split; [exact H|].
  assert (Hu : unsignedBalances Sample.connection).
  { intros t account v. cbn.
    destruct (equals account Sample.vault0); [intros [= <-]; lia|].
    destruct (equals account Sample.vault1); [intros [= <-]; lia|discriminate]. }
  destruct (createSwapTransaction_minimum_within_reserves Sample.platform
              Sample.connection Sample.wallet NATIVE_MINT Sample.tokenMint
              10000 100 (Some Sample.poolAddress) Sample.world0 w' res Hu H)
    as (balances & _ & _ & _ & Hmin & _).
  exact Hmin.
Defined.

(** X20.  The client's getQuote always searches by token pair.  It throws
    "No Raydium CPMM pool found for <input> and <output>" when the search
    returns no pool; a quote it returns was computed on an active pool,
    from the two vault balances read after the two searches. *)
Theorem getQuote_outcomes
  (connection : Connection) (inMint outMint : PublicKey) (aIn slip : Z)
  (w : World) :
  let searches :=
    [ GetProgramAccounts RAYDIUM_CPMM_PROGRAM_ID (searchFilters inMint outMint);
      GetProgramAccounts RAYDIUM_CPMM_PROGRAM_ID (searchFilters outMint inMint) ] in
  (fst (findPoolByTokenPair connection inMint outMint w) = Ok None ->
   RaydiumCPMM.getQuote connection inMint outMint aIn slip w
   = (Throw (JsError (noPoolMessage inMint outMint)), advance searches 0 w)) /\
  (forall q pool w',
     RaydiumCPMM.getQuote connection inMint outMint aIn slip w
       = (Ok (q, pool), w') ->
     fst (findPoolByTokenPair connection inMint outMint w) = Ok (Some pool) /\
     status pool = Some x00 /\
     (exists balances,
        fst (getVaultBalances connection pool (advance searches 0 w))
          = Ok balances /\
        quoteFromBalances pool balances inMint outMint aIn slip = Ok q) /\
     w' = advance (searches ++ vaultReads pool) 0 w).
Proof.
  cbv zeta. unfold RaydiumCPMM.getQuote. split.
  - rewrite findPoolByTokenPair_eq. cbn [fst]. intros Hnone.
    unfold bind. rewrite findPoolByTokenPair_eq.
    apply Ok_inj in Hnone. rewrite Hnone. reflexivity.
  - intros q pool w' H.
    await_inv H found w1 Hfound.
    destruct found as [p|]; [|discriminate H].
    await_inv H q' w2 Hq.
    apply ret_Ok_inv in H. destruct H as [[= -> ->] ->].
    pose proof (run_world _ _ _ _ Hfound) as E1.
    rewrite findPoolByTokenPair_eq in E1. cbn [snd] in E1.
    pose proof (run_world _ _ _ _ Hq) as E2. rewrite getSwapQuote_world in E2.
    split; [rewrite Hfound; reflexivity|].
    split.
    { rewrite findPoolByTokenPair_eq in Hfound.
      injection Hfound as Hfirst _.
      pose proof (firstActivePool_first_active
                    (foundAccounts
                       (getProgramAccounts connection (List.length (rpc_log w))
                          RAYDIUM_CPMM_PROGRAM_ID (searchFilters inMint outMint))
                     ++ foundAccounts
                          (getProgramAccounts connection
                             (S (List.length (rpc_log w)))
                             RAYDIUM_CPMM_PROGRAM_ID
                             (searchFilters outMint inMint)))) as Hspec.
      rewrite Hfirst in Hspec.
      destruct Hspec as (pre & c & post & _ & _ & _ & _ & _ & Hs). exact Hs. }
    split.
    { apply getSwapQuote_inv in Hq. destruct Hq as (balances & Hbal & Hquote).
      exists balances. rewrite <- E1, Hbal. split; [reflexivity|exact Hquote]. }
    rewrite E2, E1, advance_advance. reflexivity.
Qed.

Lemma getQuote_outcomes_witness :
  RaydiumCPMM.getQuote Sample.connection NATIVE_MINT Sample.tokenMint 10000 100
    Sample.world0
  = (Throw (JsError (noPoolMessage NATIVE_MINT Sample.tokenMint)),
     advance
       [ GetProgramAccounts RAYDIUM_CPMM_PROGRAM_ID
           (searchFilters NATIVE_MINT Sample.tokenMint);
         GetProgramAccounts RAYDIUM_CPMM_PROGRAM_ID
           (searchFilters Sample.tokenMint NATIVE_MINT) ] 0 Sample.world0).
Proof.
  apply (getQuote_outcomes Sample.connection NATIVE_MINT Sample.tokenMint
           10000 100 Sample.world0).
  vm_compute. reflexivity.
Defined.

(** X21.  buildSwapInstruction never truncates an amount: when amountIn or
    minimumAmountOut is negative or at least 2^64 it throws a RangeError,
    whatever the pool and the accounts, and otherwise it returns an
    instruction. *)
Theorem buildSwapInstruction_range_check
  (pool : PoolState) (payer inAcc outAcc inMint outMint inProg outProg : PublicKey)
  (aIn m : Z) :
  (~ (0 <= aIn < 2 ^ 64 /\ 0 <= m < 2 ^ 64) ->
   exists msg,
     buildSwapInstruction pool payer inAcc outAcc inMint outMint inProg outProg
       aIn m = Throw (RangeError msg)) /\
  (isOk (buildSwapInstruction pool payer inAcc outAcc inMint outMint inProg
           outProg aIn m) = true <->
   0 <= aIn < 2 ^ 64 /\ 0 <= m < 2 ^ 64).
Proof.
  unfold buildSwapInstruction. destruct (swapVaults pool inMint) as [iv ov].
  unfold writeBigUInt64LE.
  destruct (Z.leb_spec 0 aIn), (Z.ltb_spec aIn (2 ^ 64)),
           (Z.leb_spec 0 m), (Z.ltb_spec m (2 ^ 64));
    cbn [andb rbind isOk];
    (split;
     [ intros Hn; try (exfalso; apply Hn; lia); eexists; reflexivity
     | split; intros; (reflexivity || discriminate || lia) ]).
Qed.

Lemma buildSwapInstruction_range_check_witness :
  exists msg,
    buildSwapInstruction Sample.pool Sample.wallet (mkPublicKey 2311)
      (mkPublicKey 3009) NATIVE_MINT Sample.tokenMint TOKEN_PROGRAM_ID
      TOKEN_PROGRAM_ID (2 ^ 64) 0 = Throw (RangeError msg).
Proof.
  apply (buildSwapInstruction_range_check Sample.pool Sample.wallet
           (mkPublicKey 2311) (mkPublicKey 3009) NATIVE_MINT Sample.tokenMint
           TOKEN_PROGRAM_ID TOKEN_PROGRAM_ID (2 ^ 64) 0).
  lia.
Defined.

(** X22.  A round trip never pays: swapping amountIn, and then swapping
    the proceeds back on the reserves the first swap leaves behind
    (input vault plus amountIn, output vault minus amountOut), returns at
    most amountIn. *)
Theorem round_trip_returns_at_most_amountIn
  (aIn inputReserve outputReserve feeBps out1 pi1 out2 pi2 : Z) :
  0 <= aIn -> 0 < inputReserve -> 0 < outputReserve -> 0 <= feeBps < 10000 ->
  calculateSwapOutput aIn inputReserve outputReserve feeBps = Ok (out1, pi1) ->
  calculateSwapOutput out1 (outputReserve - out1) (inputReserve + aIn) feeBps
    = Ok (out2, pi2) ->
  out2 <= aIn.
Proof.
  intros Ha Hi Ho Hf H1 H2.
  rewrite calculateSwapOutput_value in H1 by (assumption || lia).
  apply Ok_inj in H1. injection H1 as Hout1 _.
  pose proof (constantProductOut_bounds aIn inputReserve outputReserve feeBps
                Ha Hi ltac:(lia) Hf) as [Hnn1 Hk1].
  pose proof (effectiveInOf_nonneg aIn feeBps Ha Hf) as He1.
  assert (Hlt : out1 < outputReserve).
  { rewrite <- Hout1. unfold constantProductOut.
    apply Z.div_lt_upper_bound; nia. }
  rewrite Hout1 in Hnn1, Hk1.
  rewrite calculateSwapOutput_value in H2 by lia.
  apply Ok_inj in H2. injection H2 as Hout2 _.
  pose proof (effectiveInOf_nonneg out1 feeBps Hnn1 Hf) as He2.
  rewrite <- Hout2. unfold constantProductOut.
  set (e1 := effectiveInOf aIn feeBps) in *.
  set (e2 := effectiveInOf out1 feeBps) in *.
  apply Z.div_le_upper_bound; [lia|].
  assert (e2 * inputReserve <= out1 * inputReserve) by nia.
  assert (out1 * inputReserve <= e1 * (outputReserve - out1)) by nia.
  assert (e1 * (outputReserve - out1) <= aIn * (outputReserve - out1)) by nia.
  nia.
Qed.

Lemma round_trip_witness : 9802 <= 10000.
Proof.
  apply (round_trip_returns_at_most_amountIn 10000 1000000 2000000 100
           19605 99 9802 97); try lia; reflexivity.
Defined.
